(** * RBAC permission resolution of [framework/wazuh/rbac/decorators.py]

    A shallow embedding of the decorator module that gates the framework
    functions: the mode switch, the resource expander, the permission
    resolver (white and black mode), the parser of required resources and
    the wrapper that enforces the result.

    Conventions of the embedding.
    - Python [str] is [string]; only ASCII is modelled (a character code
      above 127 is never a word character of the template grammar).
    - Python [set] of strings is [gset string]; a Python [list] is [list].
      [_expand_resource] returns a list for [role:id] and [policy:id] and a
      set everywhere else, and the two types do not support the same
      methods, so a value held in the final permissions is a [container].
    - A [dict] whose iteration order is observed (the final permissions,
      the statements of an action, the required permissions) is an
      insertion-ordered association list, module [Dict]; a dict that is only
      looked up (the required values, the keyword arguments, the statements
      by action) is a [gmap].
    - An exception is the [Raise] case of [result]; code that mutates its
      argument returns the new value. *)

From Stdlib Require Import Ascii String List Bool ZArith Lia.
From stdpp Require Import base option list strings gmap.

Local Open Scope string_scope.
Local Open Scope list_scope.

(** ** Exceptions and results *)

Inductive exn : Type :=
| ValueError
| AttributeError
| TypeError
| KeyError
| IndexError
| Exception
| WazuhError (code : Z) (param : option string).

Inductive result (A : Type) : Type :=
| Ok (a : A)
| Raise (e : exn).
Arguments Ok {A} a.
Arguments Raise {A} e.

Global Instance result_ret : MRet result := fun _ a => Ok a.
Global Instance result_bind : MBind result := fun _ _ k r =>
  match r with
  | Ok a => k a
  | Raise e => Raise e
  end.

(** A [for] loop whose body may raise: the first exception ends the loop. *)
Fixpoint for_each {A S} (body : S → A → result S) (l : list A) (s : S)
  : result S :=
  match l with
  | [] => Ok s
  | x :: l' => s' ← body s x; for_each body l' s'
  end.

Definition is_ok {A} (r : result A) : Prop := ∃ a, r = Ok a.

(** ** Strings: [str.split] and [str.join] *)

Definition colon : ascii := ":"%char.

(** [s.split(c)] for a one-character separator: never empty. *)
Fixpoint split (c : ascii) (s : string) : list string :=
  match s with
  | EmptyString => [EmptyString]
  | String a s' =>
      if Ascii.eqb a c then EmptyString :: split c s'
      else match split c s' with
           | [] => [String a EmptyString]
           | h :: t => String a h :: t
           end
  end.

(** [sep.join(l)] *)
Definition join (sep : string) (l : list string) : string :=
  String.concat sep l.

(** [l[:-1]] and [l[-1]] on the parts of a split *)
Definition init_parts (l : list string) : list string := removelast l.
Definition last_part (l : list string) : string := List.last l EmptyString.

(** [':'.join(element.split(':')[:-1])] *)
Definition prefix_of_resource (element : string) : string :=
  join ":" (init_parts (split colon element)).

(** [element.split(':')[-1]] *)
Definition value_of_resource (element : string) : string :=
  last_part (split colon element).

(** ** Sets and lists held in the final permissions *)

Inductive container : Type :=
| PySet (s : gset string)
| PyList (l : list string).

(** The values a container holds, whatever its type. *)
Definition values (c : container) : gset string :=
  match c with
  | PySet s => s
  | PyList l => list_to_set l
  end.

(** [len(c)] *)
Definition len (c : container) : nat :=
  match c with
  | PySet s => size s
  | PyList l => length l
  end.

(** [list(c)]; the iteration order of a set is the one of [elements]. *)
Definition to_list (c : container) : list string :=
  match c with
  | PySet s => elements s
  | PyList l => l
  end.

(** [c.update]: the bound method, which only a set has; it is looked up
    before the argument of the call is evaluated. *)
Definition update_method (c : container) : result (container → container) :=
  match c with
  | PySet s => Ok (fun other => PySet (s ∪ values other))
  | PyList _ => Raise AttributeError
  end.

(** [c.update(other)]; [other] is any iterable. *)
Definition update (c other : container) : result container :=
  bound ← update_method c; Ok (bound other).

(** [c.difference_update(other)]: a method of sets only. *)
Definition difference_update (c other : container) : result container :=
  match c with
  | PySet s => Ok (PySet (s ∖ values other))
  | PyList _ => Raise AttributeError
  end.

(** [c.intersection(s)]: a method of sets only. *)
Definition intersection (c : container) (s : gset string) : result container :=
  match c with
  | PySet s' => Ok (PySet (s' ∩ s))
  | PyList _ => Raise AttributeError
  end.

(** [c.clear()]: sets and lists both have it. *)
Definition clear (c : container) : container :=
  match c with
  | PySet _ => PySet ∅
  | PyList _ => PyList []
  end.

(** [s - other]: the operator wants a set on both sides. *)
Definition set_minus (s : gset string) (other : container)
  : result (gset string) :=
  match other with
  | PySet s' => Ok (s ∖ s')
  | PyList _ => Raise TypeError
  end.

(** ** Insertion-ordered dictionaries with string keys *)

Module Dict.

(** The bindings in insertion order. *)
Abbreviation t V := (list (string * V)) (only parsing).

Definition empty {V} : t V := [].

(** [d.get(k)] *)
Fixpoint get {V} (d : t V) (k : string) : option V :=
  match d with
  | [] => None
  | (k', v) :: d' => if String.eqb k' k then Some v else get d' k
  end.

(** [d[k]] *)
Definition item {V} (d : t V) (k : string) : result V :=
  match get d k with
  | Some v => Ok v
  | None => Raise KeyError
  end.

(** [k in d.keys()] *)
Definition mem {V} (d : t V) (k : string) : bool :=
  match get d k with Some _ => true | None => false end.

(** [d[k] = v]: in place when [k] is a key, at the end otherwise *)
Fixpoint set {V} (d : t V) (k : string) (v : V) : t V :=
  match d with
  | [] => [(k, v)]
  | (k', v') :: d' =>
      if String.eqb k' k then (k', v) :: d' else (k', v') :: set d' k v
  end.

(** [d.pop(k)]. The keys of a dictionary are unique; every binding of [k]
    goes, so that lookups after [pop] need no side condition. *)
Fixpoint pop {V} (d : t V) (k : string) : t V :=
  match d with
  | [] => []
  | (k', v') :: d' =>
      if String.eqb k' k then pop d' k else (k', v') :: pop d' k
  end.

(** [list(d.keys())] *)
Definition keys {V} (d : t V) : list string := map fst d.

End Dict.

(** ** The mode and its switch *)

(** [switch_mode(m)] on the module variable [mode]: the new value of the
    variable and what the call returns. *)
Definition switch_mode (m : string) (mode : string) : string * result unit :=
  if negb (String.eqb m "white") && negb (String.eqb m "black")
  then (mode, Raise TypeError)
  else (m, Ok tt).

(** ** The directories of the system

    [get_agents_info], [get_groups] and [expand_group] of
    [wazuh.core.core_utils] return sets; the role, policy and user managers
    return rows, of which the expander keeps the ids (in row order) or the
    user names. *)

Record directories : Type := {
  get_agents_info : gset string;
  get_groups : gset string;
  expand_group : string → gset string;
  get_roles : list string;
  get_policies : list string;
  get_users : list string;
}.

Section Resolver.

Context (sys : directories).

(** The module variable [mode], read by the resolver. *)
Context (mode : string).

Definition _expand_resource (resource : string) : result container :=
  match split colon resource with
  | [name; attribute; value] =>
      let resource_type := join ":" [name; attribute] in
      if String.eqb resource_type "agent:group" then
        Ok (PySet (expand_group sys value))
      else if String.eqb value "*" then
        if String.eqb resource_type "agent:id" then
          Ok (PySet (get_agents_info sys))
        else if String.eqb resource_type "group:id" then
          Ok (PySet (get_groups sys))
        else if String.eqb resource_type "role:id" then
          Ok (PyList (get_roles sys))
        else if String.eqb resource_type "policy:id" then
          Ok (PyList (get_policies sys))
        else if String.eqb resource_type "user:id" then
          Ok (PySet (list_to_set (get_users sys)))
        else Ok (PySet ∅)
      else Ok (PySet {[value]})
  | _ => Raise ValueError
  end.

Definition _use_expanded_resource (effect : string)
    (final_permissions expanded_resource : container)
    (req_resources_value : gset string) (delete : bool) : result container :=
  expanded_resource ←
    (if bool_decide ("*" ∉ req_resources_value)
     then intersection expanded_resource req_resources_value
     else Ok expanded_resource);
  if String.eqb effect "allow" then
    update final_permissions expanded_resource
  else if delete then
    Ok (clear final_permissions)
  else
    difference_update final_permissions expanded_resource.

Definition _black_mode_expansion (final_user_permissions : Dict.t container)
    (identifier : string) (black_negation : gset string)
  : result (Dict.t container * gset string) :=
  if bool_decide (identifier ∉ black_negation) then
    expanded ← _expand_resource (identifier +:+ ":*");
    Ok (Dict.set final_user_permissions identifier expanded,
        black_negation ∪ {[identifier]})
  else Ok (final_user_permissions, black_negation).

(** The body of the loop of [_black_mode_sanitize]. *)
Definition sanitize_key (req_resources_value : gmap string (gset string))
    (final_user_permissions : Dict.t container) (user_key : string)
  : result (Dict.t container) :=
  match req_resources_value !! user_key with
  | None => Ok (Dict.pop final_user_permissions user_key)
  | Some required =>
      if bool_decide (required ≠ {["*"]}) then
        current ← Dict.item final_user_permissions user_key;
        narrowed ← intersection current required;
        Ok (Dict.set final_user_permissions user_key narrowed)
      else Ok final_user_permissions
  end.

Definition _black_mode_sanitize (final_user_permissions : Dict.t container)
    (req_resources_value : gmap string (gset string))
  : result (Dict.t container) :=
  for_each (sanitize_key req_resources_value)
           (Dict.keys final_user_permissions) final_user_permissions.

(** The first loop of [_permissions_processing]: the required values by
    identifier. *)
Definition add_required (req_resources_value : gmap string (gset string))
    (element : string) : gmap string (gset string) :=
  let key := prefix_of_resource element in
  let req :=
    match req_resources_value !! key with
    | None => <[key := ∅]> req_resources_value
    | Some _ => req_resources_value
    end in
  <[key := default ∅ (req !! key) ∪ {[value_of_resource element]}]> req.

Definition required_values (req_resources : list string)
  : gmap string (gset string) :=
  fold_left add_required req_resources ∅.

(** The body of the loop taken with no statement in black mode. *)
Definition default_allow (final_user_permissions : Dict.t container)
    (req_resource : string) : result (Dict.t container) :=
  let identifier := prefix_of_resource req_resource in
  if String.eqb identifier "*:*" then
    Ok (Dict.set final_user_permissions "*:*" (PySet {["*"]}))
  else
    expanded_resource ← _expand_resource req_resource;
    let final :=
      if Dict.mem final_user_permissions identifier
      then final_user_permissions
      else Dict.set final_user_permissions identifier (PySet ∅) in
    current ← Dict.item final identifier;
    current ← update current expanded_resource;
    Ok (Dict.set final identifier current).

(** The body of the loop over the statements of the user. The [try] block
    raises [KeyError] before it changes anything: where the identifier has
    no required values, the handler runs on the permissions as they were. *)
Definition apply_statement (req_resources_value : gmap string (gset string))
    (state : Dict.t container * gset string) (statement : string * string)
  : result (Dict.t container * gset string) :=
  let '(final_user_permissions, black_negation) := state in
  let '(user_resource, user_resource_effect) := statement in
  match split colon user_resource with
  | [name; attribute; value] =>
      let identifier := name +:+ ":" +:+ attribute in
      let identifier :=
        if String.eqb identifier "agent:group" then "agent:id"
        else identifier in
      let final :=
        if Dict.mem final_user_permissions identifier
        then final_user_permissions
        else Dict.set final_user_permissions identifier (PySet ∅) in
      '(final, black_negation) ←
        (if String.eqb mode "black"
         then _black_mode_expansion final identifier black_negation
         else Ok (final, black_negation));
      expanded_resource ← _expand_resource user_resource;
      current ← Dict.item final identifier;
      match req_resources_value !! identifier with
      | Some required =>
          current ←
            (if String.eqb identifier "*:*"
                || (String.eqb user_resource_effect "allow"
                    && bool_decide ("*" ∉ required)
                    && String.eqb value "*")
             then
               bound ← update_method current;
               missing ← set_minus required expanded_resource;
               Ok (bound (PySet missing))
             else Ok current);
          current ←
            _use_expanded_resource user_resource_effect current
              expanded_resource required
              (String.eqb value "*" && String.eqb user_resource_effect "deny");
          Ok (Dict.set final identifier current, black_negation)
      | None =>
          _ ← (if String.eqb identifier "*:*"
               then update_method current
               else Ok (fun c => c));
          if Nat.eqb (len current) 0
          then Ok (Dict.pop final identifier, black_negation)
          else Ok (final, black_negation)
      end
  | _ => Raise ValueError
  end.

Definition _permissions_processing (req_resources : list string)
    (user_permissions_for_resource : Dict.t string)
    (final_user_permissions : Dict.t container) : result (Dict.t container) :=
  let req_resources_value := required_values req_resources in
  if Nat.eqb (length (Dict.keys user_permissions_for_resource)) 0
     && String.eqb mode "black"
  then for_each default_allow req_resources final_user_permissions
  else
    '(final, _) ←
      for_each (apply_statement req_resources_value)
               user_permissions_for_resource (final_user_permissions, ∅);
    if String.eqb mode "black"
    then _black_mode_sanitize final req_resources_value
    else Ok final.

End Resolver.

(** ** The grammar of a declared resource

    [re.search(r'^([a-z*]+:[a-z*]+:)(\w+|\*|{(\w+)})$', resource)]. No
    character class of the pattern holds a colon, so a match splits at
    exactly two colons; [$] also matches before a newline that ends the
    string, and no class holds a newline, so such a newline stays out of
    the groups. *)

Definition in_range (lo hi a : ascii) : bool :=
  (nat_of_ascii lo <=? nat_of_ascii a)%nat
  && (nat_of_ascii a <=? nat_of_ascii hi)%nat.

(** [[a-z*]] *)
Definition is_lower_or_star (a : ascii) : bool :=
  in_range "a" "z" a || Ascii.eqb a "*".

(** [\w] on ASCII *)
Definition is_word (a : ascii) : bool :=
  in_range "a" "z" a || in_range "A" "Z" a || in_range "0" "9" a
  || Ascii.eqb a "_".

Fixpoint all_chars (p : ascii → bool) (s : string) : bool :=
  match s with
  | EmptyString => true
  | String a s' => p a && all_chars p s'
  end.

(** [c+]: one character of the class or more, and nothing else *)
Definition plus (p : ascii → bool) (s : string) : bool :=
  negb (String.eqb s "") && all_chars p s.

(** [s] without its last character, when that character is [c] *)
Fixpoint strip_last (c : ascii) (s : string) : option string :=
  match s with
  | EmptyString => None
  | String a EmptyString => if Ascii.eqb a c then Some EmptyString else None
  | String a s' => option_map (String a) (strip_last c s')
  end.

Definition newline : ascii := ascii_of_nat 10.

(** The inside of [{...}] *)
Definition braced (s : string) : option string :=
  match s with
  | String a s' => if Ascii.eqb a "{" then strip_last "}" s' else None
  | EmptyString => None
  end.

Record template_match : Type := {
  group1 : string;
  group2 : string;
  group3 : option string;
}.

Definition match_template (resource : string) : option template_match :=
  let text := default resource (strip_last newline resource) in
  match split colon text with
  | [name; attribute; value] =>
      if plus is_lower_or_star name && plus is_lower_or_star attribute then
        let res_base := name +:+ ":" +:+ attribute +:+ ":" in
        if plus is_word value || String.eqb value "*" then
          Some {| group1 := res_base; group2 := value; group3 := None |}
        else
          match braced value with
          | Some inner =>
              if plus is_word inner then
                Some {| group1 := res_base; group2 := value;
                        group3 := Some inner |}
              else None
          | None => None
          end
      else None
  | _ => None
  end.

(** ** Keyword arguments of a call *)

(** A value bound to a keyword: a list (of items known by their [str()]),
    a string, [None], the statements of the user (the [rbac] argument:
    action to ordered statements), or any other object, known by its
    [str()]. *)
Inductive pyarg : Type :=
| PList (items : list string)
| PStr (s : string)
| PNone
| PRbac (statements : gmap string (Dict.t string))
| PObj (str : string).

Section Gate.

Context (sys : directories).
Context (mode : string).

(** [str()] of a dictionary of statements, which the parser formats into a
    resource when a placeholder is named after the [rbac] argument. *)
Context (str_of_statements : gmap string (Dict.t string) → string).

(** [str(params)] of a value that is not a list *)
Definition str_of (params : pyarg) : string :=
  match params with
  | PStr s | PObj s => s
  | PRbac statements => str_of_statements statements
  | PNone => "None"
  | PList _ => ""
  end.

(** [params is None or params == '*'] *)
Definition is_none_or_star (params : pyarg) : bool :=
  match params with
  | PNone => true
  | PStr s => String.eqb s "*"
  | _ => false
  end.

(** The body of the loop of [_get_required_permissions]; the state is
    [(res_list, target_params, add_denied)]. [m] is [None] when the
    resource is not in the grammar, and [m.group(1)] then raises. A second
    group holds ['{'] exactly when the third group is there. *)
Definition parse_resource (kwargs : gmap string pyarg)
    (state : list string * list string * bool) (resource : string)
  : result (list string * list string * bool) :=
  let '(res_list, target_params, add_denied) := state in
  match match_template resource with
  | None => Raise AttributeError
  | Some m =>
      let res_base := group1 m in
      match group3 m with
      | Some name =>
          let target_params := target_params ++ [name] in
          match kwargs !! name with
          | Some (PList params) =>
              if Nat.eqb (length params) 0 then
                Raise (WazuhError 4015 (Some name))
              else
                Ok (res_list ++ map (fun param => res_base +:+ param) params,
                    target_params, add_denied)
          | Some params =>
              if is_none_or_star params then
                Ok (res_list ++ [res_base +:+ "*"], target_params, true)
              else
                Ok (res_list ++ [res_base +:+ str_of params],
                    target_params, add_denied)
          | None =>
              Ok (res_list ++ [res_base +:+ "*"], target_params, false)
          end
      | None =>
          Ok (res_list ++ [resource], target_params ++ [group2 m], add_denied)
      end
  end.

(** The last loop of [_get_required_permissions]: every action requires
    the same resources. *)
Definition required_permissions (actions res_list : list string)
  : Dict.t (list string) :=
  fold_left (fun req_permissions action =>
               Dict.set req_permissions action res_list)
            actions Dict.empty.

Definition _get_required_permissions (actions resources : list string)
    (kwargs : gmap string pyarg)
  : result (list string * Dict.t (list string) * bool) :=
  '(res_list, target_params, add_denied) ←
    for_each (parse_resource kwargs) resources ([], [], true);
  Ok (target_params, required_permissions actions res_list, add_denied).

(** [rbac[req_action]], in the [try] of [_match_permissions]: [None] is
    the [KeyError] of a dictionary without the action; subscripting
    anything else than a dictionary with a string is a [TypeError]. *)
Definition statements_of (rbac : pyarg) (req_action : string)
  : result (option (Dict.t string)) :=
  match rbac with
  | PRbac statements => Ok (statements !! req_action)
  | _ => Raise TypeError
  end.

Definition _match_permissions (req_permissions : Dict.t (list string))
    (rbac : pyarg) : result (Dict.t container) :=
  for_each
    (fun allow_match '(req_action, req_resources) =>
       found ← statements_of rbac req_action;
       match found with
       | Some statements =>
           _permissions_processing sys mode req_resources statements
                                   allow_match
       | None =>
           _permissions_processing sys mode req_resources Dict.empty
                                   allow_match
       end)
    req_permissions Dict.empty.

(** [try: body except Exception: raise WazuhError(4000)] *)
Definition or_access_denied {A} (body : result A) : result A :=
  match body with
  | Ok a => Ok a
  | Raise _ => Raise (WazuhError 4000 None)
  end.

(** [list(allow.keys())[index]] then [allow[...]] *)
Definition entry_at (allow : Dict.t container) (index : nat)
  : result container :=
  match Dict.keys allow !! index with
  | Some key => Dict.item allow key
  | None => Raise IndexError
  end.

(** The body of the loop over the targets in [wrapper]. *)
Definition enforce_target (allow : Dict.t container)
    (kwargs : gmap string pyarg) (indexed : nat * string)
  : result (gmap string pyarg) :=
  let '(index, target) := indexed in
  or_access_denied
    (permitted ← entry_at allow index;
     if Nat.eqb (len permitted) 0 then Raise Exception
     else if negb (String.eqb target "*") then
       Ok (<[target := PList (to_list permitted)]> kwargs)
     else Ok kwargs).

(** [enumerate(l)] *)
Definition enumerate {A} (l : list A) : list (nat * A) :=
  combine (seq 0 (length l)) l.

(** What [wrapper] has computed when it is about to call the function. *)
Record authorized : Type := {
  call_kwargs : gmap string pyarg;
  original_kwargs : gmap string pyarg;
  allow : Dict.t container;
  target_params : list string;
  add_denied : bool;
}.

(** [wrapper] up to the call of the decorated function. [actions] and
    [resources] are passed by keyword next to [**kwargs]: a call that binds
    one of these names again is a [TypeError]. *)
Definition authorize (actions resources : list string) (stack : bool)
    (kwargs : gmap string pyarg) : result authorized :=
  if bool_decide (is_Some (kwargs !! "actions"))
     || bool_decide (is_Some (kwargs !! "resources"))
  then Raise TypeError
  else
    '(target_params, req_permissions, add_denied) ←
      _get_required_permissions actions resources kwargs;
    rbac ← match kwargs !! "rbac" with
           | Some rbac => Ok rbac
           | None => Raise KeyError
           end;
    allow ← _match_permissions req_permissions rbac;
    let kwargs := if stack then kwargs else delete "rbac" kwargs in
    let original_kwargs := kwargs in
    kwargs ← for_each (enforce_target allow) (enumerate target_params) kwargs;
    Ok {| call_kwargs := kwargs; original_kwargs := original_kwargs;
          allow := allow; target_params := target_params;
          add_denied := add_denied |}.

(** [wrapper]: the calls made to the decorated function, in order, and the
    outcome. *)
Definition wrapper {R} (actions resources : list string) (stack : bool)
    (func : gmap string pyarg → result R)
    (post_proc_func : option (R → authorized → result R))
    (kwargs : gmap string pyarg)
  : list (gmap string pyarg) * result R :=
  match authorize actions resources stack kwargs with
  | Raise e => ([], Raise e)
  | Ok a =>
      ([call_kwargs a],
       result ← func (call_kwargs a);
       match post_proc_func with
       | None => Ok result
       | Some post => post result a
       end)
  end.

End Gate.

(** * Vocabulary of the properties *)

(** ** Strings *)

(** No character of the string is a colon. *)
Fixpoint no_colon (s : string) : Prop :=
  match s with
  | EmptyString => True
  | String a s' => a ≠ colon ∧ no_colon s'
  end.

(** ** Permissions *)

(** The permitted values of an identifier: none where it has no entry. *)
Definition permitted (final : Dict.t container) (identifier : string)
  : gset string :=
  match Dict.get final identifier with
  | Some c => values c
  | None => ∅
  end.

(** The container is a set, not a list. *)
Definition is_set (c : container) : Prop := ∃ s, c = PySet s.

(** Every entry is a set. *)
Definition all_sets (final : Dict.t container) : Prop :=
  ∀ p c, Dict.get final p = Some c → is_set c.


(** ** Resources *)

(** The five identifiers whose wildcard the system can enumerate. *)
Definition enumerable : list string :=
  ["agent:id"; "group:id"; "role:id"; "policy:id"; "user:id"].

(** What the wildcard of an identifier expands to. *)
Definition universe (sys : directories) (identifier : string) : container :=
  if String.eqb identifier "agent:group" then PySet (expand_group sys "*")
  else if String.eqb identifier "agent:id" then PySet (get_agents_info sys)
  else if String.eqb identifier "group:id" then PySet (get_groups sys)
  else if String.eqb identifier "role:id" then PyList (get_roles sys)
  else if String.eqb identifier "policy:id" then PyList (get_policies sys)
  else if String.eqb identifier "user:id" then
    PySet (list_to_set (get_users sys))
  else PySet ∅.

(** A resource of three parts, [type:attribute:value]. *)
Definition three_parts (resource : string) : Prop :=
  ∃ name attribute value, split colon resource = [name; attribute; value].

(** A resource of three parts whose prefix the system does not expand to a
    list. *)
Definition plain (resource : string) : Prop :=
  ∃ name attribute value,
    split colon resource = [name; attribute; value]
    ∧ name +:+ ":" +:+ attribute ≠ "role:id"
    ∧ name +:+ ":" +:+ attribute ≠ "policy:id".

(** The values a resource expands to. *)
Definition expanded_values (sys : directories) (resource : string)
  : gset string :=
  match _expand_resource sys resource with
  | Ok c => values c
  | Raise _ => ∅
  end.

(** The resource is one of the identifier. *)
Definition has_prefix (identifier resource : string) : bool :=
  String.eqb (prefix_of_resource resource) identifier.

(** The values required of an identifier by a list of resources. *)
Definition required_of (req_resources : list string) (identifier : string)
  : gset string :=
  list_to_set
    (map value_of_resource (List.filter (has_prefix identifier) req_resources)).

(** What the loop without statements grants under an identifier: the
    wildcard under [*:*], and elsewhere the expansions of the required
    resources of that identifier. *)
Definition default_grant (sys : directories) (req_resources : list string)
    (identifier : string) : gset string :=
  if String.eqb identifier "*:*" then {["*"]}
  else ⋃ map (expanded_values sys)
           (List.filter (has_prefix identifier) req_resources).

(** ** Statements *)

(** The identifier a statement on [name:attribute:...] is filed under. *)
Definition identifier_of (name attribute : string) : string :=
  if String.eqb (name +:+ ":" +:+ attribute) "agent:group" then "agent:id"
  else name +:+ ":" +:+ attribute.

(** The expansion of [name:attribute:value]. *)
Definition expansion (sys : directories) (name attribute value : string)
  : container :=
  if String.eqb (name +:+ ":" +:+ attribute) "agent:group"
  then PySet (expand_group sys value)
  else if String.eqb value "*"
       then universe sys (name +:+ ":" +:+ attribute)
       else PySet {[value]}.

(** The statement has three parts and is filed under the identifier. *)
Definition files_under (identifier : string) (statement : string * string)
  : Prop :=
  ∃ name attribute value,
    split colon statement.1 = [name; attribute; value]
    ∧ identifier_of name attribute = identifier.

(** The permissions as the [try] block finds them: the identifier has an
    entry, which in black mode holds the whole universe the first time the
    identifier is met. *)
Definition prepared (sys : directories) (mode : string)
    (final : Dict.t container) (black_negation : gset string)
    (identifier : string) : Dict.t container :=
  let final :=
    if Dict.mem final identifier then final
    else Dict.set final identifier (PySet ∅) in
  if String.eqb mode "black" && bool_decide (identifier ∉ black_negation)
  then Dict.set final identifier (universe sys identifier)
  else final.

(** The entry of the identifier in these permissions. *)
Definition prepared_entry (sys : directories) (mode : string)
    (final : Dict.t container) (black_negation : gset string)
    (identifier : string) : container :=
  if String.eqb mode "black" && bool_decide (identifier ∉ black_negation)
  then universe sys identifier
  else default (PySet ∅) (Dict.get final identifier).

(** What the [try] block and its handler make of the entry: [None] when
    the entry is dropped. *)
Definition entry_step (req : gmap string (gset string))
    (identifier value effect : string) (expanded current : container)
  : result (option container) :=
  match req !! identifier with
  | Some required =>
      current ←
        (if String.eqb identifier "*:*"
            || (String.eqb effect "allow" && bool_decide ("*" ∉ required)
                && String.eqb value "*")
         then
           bound ← update_method current;
           missing ← set_minus required expanded;
           Ok (bound (PySet missing))
         else Ok current);
      current ←
        _use_expanded_resource effect current expanded required
          (String.eqb value "*" && String.eqb effect "deny");
      Ok (Some current)
  | None =>
      _ ← (if String.eqb identifier "*:*" then update_method current
           else Ok (fun c => c));
      Ok (if Nat.eqb (len current) 0 then None else Some current)
  end.

(** The permissions with the entry put back, or dropped. *)
Definition store (final : Dict.t container) (identifier : string)
    (entry : option container) : Dict.t container :=
  match entry with
  | Some c => Dict.set final identifier c
  | None => Dict.pop final identifier
  end.

(** What sanitizing makes of the entry of an identifier. *)
Definition sanitized (req : gmap string (gset string)) (identifier : string)
    (entry : option container) : option container :=
  match entry with
  | None => None
  | Some c =>
      match req !! identifier with
      | None => None
      | Some required =>
          if bool_decide (required ≠ {["*"]})
          then Some (PySet (values c ∩ required))
          else Some c
      end
  end.

(** Statements that allow each of the resources, in order. *)
Definition allowing (resources : list string) : Dict.t string :=
  map (fun r => (r, "allow")) resources.

(** Statements that deny each of the resources, in order. *)
Definition denying (resources : list string) : Dict.t string :=
  map (fun r => (r, "deny")) resources.

(** ** Invariants of the resolver *)

(** The entries are those of required identifiers. *)
Definition keys_required (req : gmap string (gset string))
    (final : Dict.t container) : Prop :=
  ∀ p, is_Some (Dict.get final p) → is_Some (req !! p).


(** Every entry belongs to a required identifier and, unless the wildcard
    is required of it, holds required values only. *)
Definition within_required (req_resources : list string)
    (final : Dict.t container) : Prop :=
  ∀ p c, Dict.get final p = Some c →
         ∃ required, required_values req_resources !! p = Some required
                     ∧ ("*" ∈ required ∨ values c ⊆ required).

(** What the loop without statements needs: group names are not agent
    ids, and the wildcard it grants under [*:*] must be required. *)
Definition default_within (req_resources : list string) : Prop :=
  required_values req_resources !! "agent:group" = None
  ∧ ∀ required, required_values req_resources !! "*:*" = Some required →
                "*" ∈ required.

(** The entries of an identifier in white mode, under statements that
    allow, and in black mode, under the same statements turned into
    denials: among the values that count (all of them when the wildcard is
    required, the required ones otherwise) the black entry holds the
    values of the universe that the white entry does not hold. *)
Definition mirrored (sys : directories) (identifier : string)
    (required : gset string) (white black : container) : Prop :=
  ∀ x, "*" ∈ required ∨ x ∈ required →
       (x ∈ values black
        ↔ x ∈ values (universe sys identifier) ∧ x ∉ values white).

(** The two runs, statement by statement: the identifiers met so far have
    mirrored entries, the others have no entry in white mode. *)
Definition in_step (sys : directories) (req_resources : list string)
    (white black : Dict.t container) (black_negation : gset string) : Prop :=
  ∀ p required,
    required_values req_resources !! p = Some required → p ≠ "*:*" →
    (p ∈ black_negation →
     ∃ cw cb, Dict.get white p = Some cw ∧ Dict.get black p = Some cb
              ∧ mirrored sys p required cw cb)
    ∧ (p ∉ black_negation → Dict.get white p = None).

(** The wildcard of the groups covers the agents, where a statement uses
    it. *)
Definition groups_cover (sys : directories) (resources : list string)
  : Prop :=
  "agent:group:*" ∈ resources →
  get_agents_info sys ⊆ expand_group sys "*".

(** ** The parser *)

(** A template whose placeholder is bound to [None] or to ['*']: it sets
    [add_denied] to true. *)
Definition binds_wildcard (kwargs : gmap string pyarg) (resource : string)
  : Prop :=
  ∃ m name params,
    match_template resource = Some m ∧ group3 m = Some name
    ∧ kwargs !! name = Some params ∧ is_none_or_star params = true.

(** ** A system to run the code on *)

(** Three agents, two groups of which [groupA] holds the agents 010 and
    011, two roles, a policy and a user. *)
Definition sys0 : directories := {|
  get_agents_info := {["001"; "002"; "003"]};
  get_groups := {["groupA"; "groupB"]};
  expand_group := fun group =>
    if String.eqb group "groupA" then {["010"; "011"]} else ∅;
  get_roles := ["1"; "2"];
  get_policies := ["7"];
  get_users := ["wazuh"];
|}.

(** ** Properties as the specification has them *)

(** The property of C1 for the actions of a call, all of which require
    the same resources: where the wildcard is not among the required
    values of an identifier, every permitted value of the identifier is
    one of them. *)
Definition over_grant_free (sys : directories) (mode : string)
    (actions req_resources : list string) (rbac : pyarg) : Prop :=
  ∀ allow,
    _match_permissions sys mode (required_permissions actions req_resources)
      rbac = Ok allow →
    ∀ identifier required value,
      required_values req_resources !! identifier = Some required →
      "*" ∉ required →
      value ∈ permitted allow identifier → value ∈ required.

(** C1 as specified: in both modes, whatever is required. *)
Definition no_over_grant_as_specified : Prop :=
  ∀ sys mode actions req_resources rbac,
    mode = "white" ∨ mode = "black" →
    over_grant_free sys mode actions req_resources rbac.


(** C3 as specified: on each required identifier the two final sets are
    disjoint and make up the whole universe of the identifier. *)
Definition mode_duality_as_specified : Prop :=
  ∀ (sys : directories) (req_resources statements : list string)
    (white black : Dict.t container),
    _permissions_processing sys "white" req_resources (allowing statements)
      Dict.empty = Ok white →
    _permissions_processing sys "black" req_resources (denying statements)
      Dict.empty = Ok black →
    ∀ p, is_Some (required_values req_resources !! p) →
         permitted white p ∩ permitted black p = ∅
         ∧ permitted white p ∪ permitted black p = values (universe sys p).

(** C4 as specified, scenario D: required [agent:group:groupA], the group
    holding 010 and 011, one statement that allows [agent:group:groupA],
    white mode, and the final permissions [{agent:id: {010, 011}}]. *)
Definition scenario_D_as_specified : Prop :=
  ∀ sys : directories,
    expand_group sys "groupA" = {["010"; "011"]} →
    _permissions_processing sys "white" ["agent:group:groupA"]
      [("agent:group:groupA", "allow")] Dict.empty
    = Ok [("agent:id", PySet {["010"; "011"]})].

(** C8 as specified, for any template of the declared resources: the
    parser fails with error 4015 on the name of its placeholder exactly
    when the name is bound to the empty list, and returns
    [add_denied = False] when the name is not bound. *)
Definition placeholder_parsing_as_specified : Prop :=
  ∀ (str_of_statements : gmap string (Dict.t string) → string)
    (actions resources : list string) (kwargs : gmap string pyarg)
    (resource : string) (m : template_match) (name : string),
    resource ∈ resources →
    match_template resource = Some m → group3 m = Some name →
    (_get_required_permissions str_of_statements actions resources kwargs
     = Raise (WazuhError 4015 (Some name))
     ↔ kwargs !! name = Some (PList []))
    ∧ (kwargs !! name = None →
       ∃ targets required,
         _get_required_permissions str_of_statements actions resources kwargs
         = Ok (targets, required, false)).

(** ** Vocabulary of the further properties *)

(** The errors of a list where the code wants a set: a list has no
    [update], [difference_update] or [intersection], and is no operand of
    a difference of sets. *)
Definition list_error (e : exn) : Prop := e = AttributeError ∨ e = TypeError.

(** The identifiers whose wildcard the system expands to a list. *)
Definition listed (identifier : string) : Prop :=
  identifier = "role:id" ∨ identifier = "policy:id".

(** The statements of the user for an action: none when the user has no
    entry for it. *)
Definition statements_for (statements : gmap string (Dict.t string))
    (action : string) : Dict.t string :=
  default Dict.empty (statements !! action).

(** The statements of the user for the actions, one after the other. *)
Definition statements_of_all (statements : gmap string (Dict.t string))
    (actions : list string) : Dict.t string :=
  concat (map (statements_for statements) actions).

(** The target that a declared resource stands for: the name between the
    braces, or the value. *)
Definition target_of (resource : string) : string :=
  match match_template resource with
  | Some m => default (group2 m) (group3 m)
  | None => ""
  end.

(** A declared resource that the parser accepts in a call: it is in the
    grammar, and its placeholder is not bound to the empty list. *)
Definition well_declared (kwargs : gmap string pyarg) (resource : string)
  : Prop :=
  ∃ m, match_template resource = Some m
       ∧ ∀ name, group3 m = Some name → kwargs !! name ≠ Some (PList []).

(** * Properties *)

(** Appending to a string that starts with a character unfolds. *)
Local Arguments String.append !s1 s2.

(** ** Results *)

Lemma bind_ok {A B} (r : result A) (k : A → result B) (b : B) :
  r ≫= k = Ok b ↔ ∃ a, r = Ok a ∧ k a = Ok b.
Proof.
  destruct r as [a|e]; simpl.
  - split; [eauto | intros (a' & [= <-] & H); exact H].
  - split; [discriminate | intros (a' & [=] & _)].
Qed.

Lemma for_each_app {A S} (body : S → A → result S) (l1 l2 : list A) (s : S) :
  for_each body (l1 ++ l2) s = for_each body l1 s ≫= for_each body l2.
Proof.
  revert s. induction l1 as [|x l1 IH]; intros s; simpl; [done|].
  destruct (body s x) as [s'|e]; simpl; [apply IH | done].
Qed.

(** A property kept by every iteration is kept by the loop. *)
Lemma for_each_invariant {A S} (P : S → Prop) (body : S → A → result S)
    (l : list A) (s s' : S) :
  (∀ s x s', x ∈ l → P s → body s x = Ok s' → P s') →
  P s → for_each body l s = Ok s' → P s'.
Proof.
  revert s. induction l as [|x l IH]; intros s Hstep Hs; simpl.
  - intros [= <-]. exact Hs.
  - intros H. apply bind_ok in H as (s1 & H1 & H2).
    apply (IH s1); [| |exact H2].
    + intros s0 y s0' Hy. apply Hstep. by right.
    + eapply Hstep; [by left|exact Hs|exact H1].
Qed.

(** ** Splitting and joining at colons *)

Lemma append_assoc (a b c : string) : (a +:+ b) +:+ c = a +:+ (b +:+ c).
Proof. induction a as [|x a IH]; simpl; [done|]. by rewrite IH. Qed.

Lemma split_not_nil (s : string) : split colon s ≠ [].
Proof.
  destruct s as [|a s]; simpl; [done|].
  destruct (Ascii.eqb a colon); [done|].
  by destruct (split colon s).
Qed.

Lemma split_no_colon (s : string) : no_colon s → split colon s = [s].
Proof.
  induction s as [|a s IH]; simpl; [done|].
  intros [Ha Hs]. rewrite IH by done.
  destruct (Ascii.eqb_spec a colon); [done|done].
Qed.

Lemma split_append (a b : string) :
  no_colon a → split colon (a +:+ String colon b) = a :: split colon b.
Proof.
  induction a as [|x a IH]; simpl.
  - done.
  - intros [Hx Ha]. rewrite IH by done.
    by destruct (Ascii.eqb_spec x colon).
Qed.

Lemma split_parts (s : string) : Forall no_colon (split colon s).
Proof.
  induction s as [|a s IH]; simpl.
  - by repeat constructor.
  - destruct (Ascii.eqb_spec a colon) as [->|Ha].
    + constructor; [done|exact IH].
    + destruct (split colon s) as [|h t]; [by repeat constructor|].
      inversion IH; subst. constructor; [split; done|done].
Qed.

Lemma join_split (s : string) : join ":" (split colon s) = s.
Proof.
  induction s as [|a s IH]; simpl; [done|].
  destruct (Ascii.eqb_spec a colon) as [->|Ha].
  - unfold join in *. simpl. pose proof (split_not_nil s) as Hne.
    destruct (split colon s) as [|h t]; [done|]. simpl in *. by rewrite IH.
  - unfold join in *. pose proof (split_not_nil s) as Hne.
    destruct (split colon s) as [|h t]; [done|].
    destruct t as [|h' t]; simpl in *; by rewrite <- IH.
Qed.

(** A resource of three parts, [name:attribute:value]. *)
Lemma split_three (name attribute value : string) :
  no_colon name → no_colon attribute → no_colon value →
  split colon (name +:+ ":" +:+ attribute +:+ ":" +:+ value)
  = [name; attribute; value].
Proof.
  intros Hn Ha Hv. simpl.
  rewrite (split_append name) by done.
  rewrite (split_append attribute) by done.
  by rewrite split_no_colon.
Qed.

Lemma split_three_inv (resource name attribute value : string) :
  split colon resource = [name; attribute; value] →
  resource = name +:+ ":" +:+ attribute +:+ ":" +:+ value
  ∧ no_colon name ∧ no_colon attribute ∧ no_colon value.
Proof.
  intros H. pose proof (join_split resource) as Hj.
  pose proof (split_parts resource) as Hp. rewrite H in Hj, Hp.
  apply Forall_cons in Hp as [Hn Hp]. apply Forall_cons in Hp as [Ha Hp].
  apply Forall_cons in Hp as [Hv _]. unfold join in Hj. simpl in Hj.
  by rewrite <- Hj.
Qed.

Lemma prefix_of_three (resource name attribute value : string) :
  split colon resource = [name; attribute; value] →
  prefix_of_resource resource = name +:+ ":" +:+ attribute
  ∧ value_of_resource resource = value.
Proof.
  intros H. unfold prefix_of_resource, value_of_resource. by rewrite H.
Qed.

(** ** Dictionaries *)

Ltac case_eqb :=
  match goal with
  | |- context [String.eqb ?a ?b] =>
      destruct (String.eqb_spec a b); simplify_eq; try done
  end.

Lemma dict_get_set {V} (d : Dict.t V) (k k' : string) (v : V) :
  Dict.get (Dict.set d k v) k'
  = if String.eqb k k' then Some v else Dict.get d k'.
Proof.
  induction d as [|[k0 v0] d IH]; simpl.
  - by repeat case_eqb.
  - destruct (String.eqb_spec k0 k) as [->|Hne]; simpl.
    + by repeat case_eqb.
    + rewrite IH. by repeat case_eqb.
Qed.

Lemma dict_get_set_eq {V} (d : Dict.t V) (k : string) (v : V) :
  Dict.get (Dict.set d k v) k = Some v.
Proof. by rewrite dict_get_set, String.eqb_refl. Qed.

Lemma dict_get_set_ne {V} (d : Dict.t V) (k k' : string) (v : V) :
  k ≠ k' → Dict.get (Dict.set d k v) k' = Dict.get d k'.
Proof. intros H. rewrite dict_get_set. by case_eqb. Qed.

Lemma dict_get_pop {V} (d : Dict.t V) (k k' : string) :
  Dict.get (Dict.pop d k) k'
  = if String.eqb k k' then None else Dict.get d k'.
Proof.
  induction d as [|[k0 v0] d IH]; simpl.
  - by case_eqb.
  - destruct (String.eqb_spec k0 k) as [->|Hne]; simpl.
    + rewrite IH. by repeat case_eqb.
    + rewrite IH. by repeat case_eqb.
Qed.

Lemma dict_get_keys {V} (d : Dict.t V) (k : string) :
  k ∈ Dict.keys d ↔ is_Some (Dict.get d k).
Proof.
  induction d as [|[k0 v0] d IH]; simpl.
  - split; [intros H; inversion H | by intros [? ?]].
  - rewrite elem_of_cons, IH. case_eqb; [by split; eauto|].
    split; [by intros [->|H] | by right].
Qed.

Lemma dict_mem_get {V} (d : Dict.t V) (k : string) :
  Dict.mem d k = true ↔ is_Some (Dict.get d k).
Proof.
  unfold Dict.mem. destruct (Dict.get d k).
  - split; eauto.
  - split; [done | by intros [? ?]].
Qed.

Lemma dict_keys_set {V} (d : Dict.t V) (k : string) (v : V) :
  Dict.keys (Dict.set d k v)
  = if Dict.mem d k then Dict.keys d else Dict.keys d ++ [k].
Proof.
  unfold Dict.mem. induction d as [|[k0 v0] d IH]; simpl; [done|].
  destruct (String.eqb_spec k0 k) as [->|Hne]; simpl; [done|].
  rewrite IH. by destruct (Dict.get d k).
Qed.

(** ** The mode switch *)

(** C10. [switch_mode] returns normally exactly for ['white'] and
    ['black'], and then the stored mode is the argument; for every other
    argument it raises [TypeError] and the stored mode is what it was. *)
Theorem switch_mode_accepts_white_and_black (m mode : string) :
  (snd (switch_mode m mode) = Ok tt ↔ m = "white" ∨ m = "black")
  ∧ (m = "white" ∨ m = "black" → fst (switch_mode m mode) = m)
  ∧ (¬ (m = "white" ∨ m = "black") →
     switch_mode m mode = (mode, Raise TypeError)).
Proof.
  unfold switch_mode.
  destruct (String.eqb_spec m "white") as [->|Hw]; simpl.
  - split_and!; [by split; eauto| done | by intros []; left].
  - destruct (String.eqb_spec m "black") as [->|Hb]; simpl.
    + split_and!; [by split; eauto| done | by intros []; right].
    + split_and!; [split; [done|by intros [|]] | by intros [|] | done].
Qed.

(** ** The expander *)

Section Expander.

Context (sys : directories).

Lemma expand_resource_three (resource name attribute value : string) :
  split colon resource = [name; attribute; value] →
  _expand_resource sys resource
  = Ok (if String.eqb (name +:+ ":" +:+ attribute) "agent:group"
        then PySet (expand_group sys value)
        else if String.eqb value "*"
             then universe sys (name +:+ ":" +:+ attribute)
             else PySet {[value]}).
Proof.
  intros H. unfold _expand_resource, universe. rewrite H.
  change (join ":" [name; attribute]) with (name +:+ ":" +:+ attribute).
  by repeat case_eqb.
Qed.

Lemma expand_resource_ok (resource : string) :
  is_ok (_expand_resource sys resource)
  ↔ ∃ name attribute value, split colon resource = [name; attribute; value].
Proof.
  split.
  - intros [c H]. unfold _expand_resource in H.
    destruct (split colon resource) as [|n [|a [|v [|? ?]]]]; try done.
    by exists n, a, v.
  - intros (n & a & v & H). rewrite (expand_resource_three _ _ _ _ H).
    by eexists.
Qed.

(** C9. On an identifier of three parts: the prefix [agent:group] always
    goes to [expand_group], with the wildcard or a group name; otherwise a
    wildcard on a prefix outside the five enumerable ones expands to the
    empty set, and a value that is not the wildcard to the singleton of
    that value. *)
Theorem expand_resource_cases (resource name attribute value : string) :
  split colon resource = [name; attribute; value] →
  let prefix := name +:+ ":" +:+ attribute in
  (prefix = "agent:group" →
   _expand_resource sys resource = Ok (PySet (expand_group sys value)))
  ∧ (prefix ≠ "agent:group" → value = "*" → prefix ∉ enumerable →
     _expand_resource sys resource = Ok (PySet ∅))
  ∧ (prefix ≠ "agent:group" → value ≠ "*" →
     _expand_resource sys resource = Ok (PySet {[value]})).
Proof.
  intros H prefix. rewrite (expand_resource_three _ _ _ _ H). fold prefix.
  split_and!.
  - intros ->. done.
  - intros Hg -> Hn. case_eqb. simpl. unfold universe. fold prefix.
    destruct (String.eqb_spec prefix "agent:group"); [done|].
    repeat match goal with
           | |- context [String.eqb prefix ?k] =>
               destruct (String.eqb_spec prefix k) as [Heq|?];
               [exfalso; apply Hn; rewrite Heq; unfold enumerable;
                set_solver|]
           end.
    done.
  - intros Hg Hv. by repeat case_eqb.
Qed.

End Expander.

(** C9 at [agent:group:groupA], [agent:id:001] and the wildcard of an
    identifier the sys0tem does not enumerate. *)
Lemma expand_resource_cases_witness :
  _expand_resource sys0 "agent:group:groupA"
  = Ok (PySet (expand_group sys0 "groupA"))
  ∧ _expand_resource sys0 "node:id:*" = Ok (PySet ∅)
  ∧ _expand_resource sys0 "agent:id:001" = Ok (PySet {["001"]}).
Proof.
  split_and!.
  - apply (expand_resource_cases sys0 "agent:group:groupA" "agent" "group"
             "groupA"); reflexivity.
  - apply (expand_resource_cases sys0 "node:id:*" "node" "id" "*");
      [reflexivity|done|reflexivity|].
    apply (bool_decide_unpack _). by vm_compute.
  - apply (expand_resource_cases sys0 "agent:id:001" "agent" "id" "001");
      [reflexivity|done|done].
Defined.

(** ** The required values *)

Lemma add_required_lookup (req : gmap string (gset string))
    (element identifier : string) :
  add_required req element !! identifier
  = if has_prefix identifier element
    then Some (default ∅ (req !! identifier) ∪ {[value_of_resource element]})
    else req !! identifier.
Proof.
  unfold add_required, has_prefix.
  destruct (String.eqb_spec (prefix_of_resource element) identifier)
    as [<-|Hne].
  - rewrite lookup_insert_eq.
    destruct (req !! prefix_of_resource element) eqn:E; [by rewrite E|].
    by rewrite lookup_insert_eq.
  - rewrite lookup_insert_ne by done.
    destruct (req !! prefix_of_resource element); [done|].
    by rewrite lookup_insert_ne.
Qed.

Lemma filter_none {A} (f : A → bool) (l : list A) :
  existsb f l = false → List.filter f l = [].
Proof.
  induction l as [|x l IH]; simpl; [done|].
  destruct (f x); simpl; [done|exact IH].
Qed.

Lemma fold_add_required_lookup (req_resources : list string)
    (req : gmap string (gset string)) (identifier : string) :
  fold_left add_required req_resources req !! identifier
  = if existsb (has_prefix identifier) req_resources
    then Some (default ∅ (req !! identifier)
               ∪ required_of req_resources identifier)
    else req !! identifier.
Proof.
  revert req. unfold required_of.
  induction req_resources as [|r l IH]; intros req; simpl; [done|].
  rewrite IH, add_required_lookup.
  destruct (has_prefix identifier r); simpl.
  - destruct (existsb _ l) eqn:E; f_equal.
    + by rewrite (assoc_L (∪)).
    + rewrite (filter_none _ _ E). simpl. by rewrite (right_id_L ∅ (∪)).
  - done.
Qed.

Lemma required_values_lookup (req_resources : list string)
    (identifier : string) :
  required_values req_resources !! identifier
  = if existsb (has_prefix identifier) req_resources
    then Some (required_of req_resources identifier)
    else None.
Proof.
  unfold required_values. rewrite fold_add_required_lookup, lookup_empty.
  destruct (existsb _ _); [|done]. simpl. by rewrite (left_id_L ∅ (∪)).
Qed.

(** Every required resource has its value among the required values of
    its prefix. *)
Lemma required_values_elem (req_resources : list string) (r : string) :
  r ∈ req_resources →
  ∃ required,
    required_values req_resources !! prefix_of_resource r = Some required
    ∧ value_of_resource r ∈ required.
Proof.
  intros Hr. rewrite required_values_lookup.
  assert (existsb (has_prefix (prefix_of_resource r)) req_resources = true)
    as ->.
  { apply existsb_exists. exists r. split; [by apply list_elem_of_In|].
    apply String.eqb_refl. }
  eexists; split; [done|]. unfold required_of.
  apply elem_of_list_to_set, list_elem_of_fmap. exists r. split; [done|].
  apply list_elem_of_In, filter_In. split; [by apply list_elem_of_In|].
  apply String.eqb_refl.
Qed.

(** ** Scenarios of the resolver in white mode *)

(** Runs the resolver on given resources and statements; the required
    values are only known by their lookup at [identifier]. *)
Ltac resolve_scenario identifier :=
  unfold _permissions_processing;
  match goal with
  | |- context [required_values ?l] =>
      let H := fresh "Hreq" in
      pose proof (required_values_lookup l identifier) as H;
      cbn -[required_values] in H;
      generalize dependent (required_values l); intros ? H;
      repeat (progress (cbn; rewrite ?H; unfold _use_expanded_resource;
                        rewrite ?bool_decide_true by set_solver;
                        rewrite ?bool_decide_false by set_solver))
  end.

(** C4, as specified, fails: the statement is filed under [agent:id], the
    required values are filed under [agent:group], the lookup of the
    required values raises [KeyError] and the handler drops the empty
    entry. *)
Lemma scenario_D_counterexample : ¬ scenario_D_as_specified.
Proof.
  intros H. specialize (H sys0 eq_refl). vm_compute in H. discriminate H.
Qed.

(** C4, amended. In white mode a statement that allows
    [agent:group:groupA], the group holding 010 and 011, grants
    [{agent:id: {010, 011}}] when the agents are what is required, by id or
    by wildcard; when [agent:group:groupA] itself is required the final
    permissions are empty. *)
Theorem scenario_D_group_grant (sys : directories) :
  expand_group sys "groupA" = {["010"; "011"]} →
  _permissions_processing sys "white" ["agent:group:groupA"]
    [("agent:group:groupA", "allow")] Dict.empty
  = Ok []
  ∧ _permissions_processing sys "white" ["agent:id:010"; "agent:id:011"]
      [("agent:group:groupA", "allow")] Dict.empty
    = Ok [("agent:id", PySet {["010"; "011"]})]
  ∧ _permissions_processing sys "white" ["agent:id:*"]
      [("agent:group:groupA", "allow")] Dict.empty
    = Ok [("agent:id", PySet {["010"; "011"]})].
Proof.
  intros HG. split_and!.
  - by resolve_scenario "agent:id".
  - resolve_scenario "agent:id". rewrite HG. reflexivity.
  - resolve_scenario "agent:id". rewrite HG. reflexivity.
Qed.

Lemma scenario_D_group_grant_witness :
  _permissions_processing sys0 "white" ["agent:group:groupA"]
    [("agent:group:groupA", "allow")] Dict.empty
  = Ok []
  ∧ _permissions_processing sys0 "white" ["agent:id:010"; "agent:id:011"]
      [("agent:group:groupA", "allow")] Dict.empty
    = Ok [("agent:id", PySet {["010"; "011"]})]
  ∧ _permissions_processing sys0 "white" ["agent:id:*"]
      [("agent:group:groupA", "allow")] Dict.empty
    = Ok [("agent:id", PySet {["010"; "011"]})].
Proof. apply (scenario_D_group_grant sys0). reflexivity. Defined.

(** Scenario C in the resolver: the wildcard allow grants the required
    agent, the statement after it takes the agent away. *)
Lemma scenario_C_resolver (sys : directories) :
  _permissions_processing sys "white" ["agent:id:001"]
    [("agent:id:*", "allow"); ("agent:id:001", "deny")] Dict.empty
  = Ok [("agent:id", PySet ∅)].
Proof.
  resolve_scenario "agent:id". do 4 f_equal. set_solver.
Qed.

(** ** The gate on scenario C *)

(** C6. In white mode, with [agent:id:001] required and the statements
    [agent:id:*] allow then [agent:id:001] deny, the resolver leaves the
    empty set under [agent:id]; a function exposed with the resource
    [agent:id:{agent_id}] and called for the agent 001 by that user is
    rejected with error 4000, and is not called. *)
Theorem scenario_C_denied {R} (sys : directories)
    (str_of_statements : gmap string (Dict.t string) → string)
    (action : string) (stack : bool)
    (func : gmap string pyarg → result R)
    (post_proc_func : option (R → authorized → result R))
    (kwargs : gmap string pyarg) (statements : gmap string (Dict.t string)) :
  kwargs !! "agent_id" = Some (PList ["001"]) →
  kwargs !! "rbac" = Some (PRbac statements) →
  kwargs !! "actions" = None →
  kwargs !! "resources" = None →
  statements !! action
  = Some [("agent:id:*", "allow"); ("agent:id:001", "deny")] →
  _permissions_processing sys "white" ["agent:id:001"]
    [("agent:id:*", "allow"); ("agent:id:001", "deny")] Dict.empty
  = Ok [("agent:id", PySet ∅)]
  ∧ wrapper sys "white" str_of_statements [action] ["agent:id:{agent_id}"]
      stack func post_proc_func kwargs
    = ([], Raise (WazuhError 4000 None)).
Proof.
  intros Hid Hrbac Hactions Hresources Hstatements.
  split; [apply scenario_C_resolver|].
  unfold wrapper, authorize. rewrite Hactions, Hresources. simpl.
  unfold _get_required_permissions. simpl.
  change (match_template "agent:id:{agent_id}")
    with (Some {| group1 := "agent:id:"; group2 := "{agent_id}";
                  group3 := Some "agent_id" |}).
  simpl. rewrite Hid, Hrbac. simpl.
  unfold _match_permissions. cbn. rewrite Hstatements.
  rewrite scenario_C_resolver. by destruct stack.
Qed.

Lemma scenario_C_denied_witness :
  wrapper sys0 "white" (fun _ => "") ["agent:read"] ["agent:id:{agent_id}"]
    false (fun _ => Ok tt) None
    (<["agent_id" := PList ["001"]]>
       {["rbac" := PRbac {["agent:read" :=
                   [("agent:id:*", "allow"); ("agent:id:001", "deny")]]}]})
  = ([], Raise (WazuhError 4000 None)).
Proof.
  eapply proj2.
  apply (scenario_C_denied sys0 (fun _ => "") "agent:read" false
           (fun _ => Ok tt) None
           (<["agent_id" := PList ["001"]]>
              {["rbac" := PRbac {["agent:read" :=
                   [("agent:id:*", "allow"); ("agent:id:001", "deny")]]}]})
           {["agent:read" :=
               [("agent:id:*", "allow"); ("agent:id:001", "deny")]]});
    reflexivity.
Defined.

(** ** One statement of the user, seen from the entry it works on *)

Lemma dict_set_same {V} (d : Dict.t V) (k : string) (v : V) :
  Dict.get d k = Some v → Dict.set d k v = d.
Proof.
  induction d as [|[k0 v0] d IH]; simpl; [done|].
  destruct (String.eqb_spec k0 k) as [->|Hne].
  - by intros [= ->].
  - intros H. by rewrite IH.
Qed.

Section Statement.

Context (sys : directories) (mode : string).
Context (req : gmap string (gset string)).

Lemma prepared_get (final : Dict.t container) (black_negation : gset string)
    (identifier p : string) :
  Dict.get (prepared sys mode final black_negation identifier) p
  = if String.eqb identifier p
    then Some (prepared_entry sys mode final black_negation identifier)
    else Dict.get final p.
Proof.
  unfold prepared, prepared_entry, Dict.mem.
  destruct (String.eqb mode "black" && bool_decide _); simpl.
  - rewrite dict_get_set. destruct (String.eqb_spec identifier p); [done|].
    destruct (Dict.get final identifier); [done|]. by rewrite dict_get_set_ne.
  - destruct (String.eqb_spec identifier p) as [<-|Hne].
    + destruct (Dict.get final identifier) eqn:E; simpl; [done|].
      by rewrite dict_get_set_eq.
    + destruct (Dict.get final identifier); [done|].
      by rewrite dict_get_set_ne.
Qed.

Lemma store_get (final : Dict.t container) (identifier p : string)
    (entry : option container) :
  Dict.get (store final identifier entry) p
  = if String.eqb identifier p then entry else Dict.get final p.
Proof. destruct entry; simpl; [apply dict_get_set|apply dict_get_pop]. Qed.

(** The universe of an identifier is the expansion of its wildcard. *)
Lemma expand_wildcard (name attribute : string) :
  no_colon name → no_colon attribute →
  _expand_resource sys (identifier_of name attribute +:+ ":*")
  = Ok (universe sys (identifier_of name attribute)).
Proof.
  intros Hn Ha. unfold identifier_of.
  destruct (String.eqb_spec (name +:+ ":" +:+ attribute) "agent:group")
    as [E|Hne]; [done|].
  rewrite (expand_resource_three sys _ name attribute "*").
  - destruct (String.eqb_spec (name +:+ ":" +:+ attribute) "agent:group");
      done.
  - rewrite !append_assoc. apply split_three; done.
Qed.

Lemma apply_statement_entry (final : Dict.t container)
    (black_negation : gset string) (resource effect : string)
    (name attribute value : string) :
  split colon resource = [name; attribute; value] →
  let identifier := identifier_of name attribute in
  apply_statement sys mode req (final, black_negation) (resource, effect)
  = (entry ←
       entry_step req identifier value effect
         (expansion sys name attribute value)
         (prepared_entry sys mode final black_negation identifier);
     Ok (store (prepared sys mode final black_negation identifier)
               identifier entry,
         if String.eqb mode "black" then black_negation ∪ {[identifier]}
         else black_negation)).
Proof.
  intros Hsplit identifier.
  destruct (split_three_inv _ _ _ _ Hsplit) as (_ & Hn & Ha & _).
  pose proof (expand_wildcard name attribute Hn Ha) as Hwild.
  fold identifier in Hwild.
  unfold apply_statement. rewrite Hsplit. fold (identifier_of name attribute).
  fold identifier. rewrite (expand_resource_three sys _ _ _ _ Hsplit).
  fold (expansion sys name attribute value). clearbody identifier.
  assert (Dict.item (prepared sys mode final black_negation identifier)
                    identifier
          = Ok (prepared_entry sys mode final black_negation identifier))
    as Hitem.
  { unfold Dict.item. by rewrite prepared_get, String.eqb_refl. }
  assert (Dict.get (prepared sys mode final black_negation identifier)
                   identifier
          = Some (prepared_entry sys mode final black_negation identifier))
    as Hget.
  { by rewrite prepared_get, String.eqb_refl. }
  unfold prepared, prepared_entry in *.
  destruct (String.eqb_spec mode "black") as [Hb|Hw]; simpl in *.
  - unfold _black_mode_expansion. rewrite Hwild.
    destruct (bool_decide (identifier ∉ black_negation)) eqn:Hneg; simpl in *.
    + rewrite Hitem. simpl. unfold entry_step.
      destruct (req !! identifier) as [required|]; simpl.
      * destruct (_ || _); simpl.
        -- destruct (update_method _); simpl; [|done].
           destruct (set_minus _ _); simpl; [|done].
           by destruct (_use_expanded_resource _ _ _ _ _).
        -- by destruct (_use_expanded_resource _ _ _ _ _).
      * destruct (if String.eqb identifier "*:*" then _ else _); simpl;
          [|done].
        destruct (Nat.eqb _ 0); [done|]. simpl.
        by rewrite (dict_set_same _ _ _ Hget).
    + assert (black_negation ∪ {[identifier]} = black_negation) as ->.
      { apply bool_decide_eq_false in Hneg. apply dec_stable in Hneg.
        set_solver. }
      rewrite Hitem. simpl. unfold entry_step.
      destruct (req !! identifier) as [required|]; simpl.
      * destruct (_ || _); simpl.
        -- destruct (update_method _); simpl; [|done].
           destruct (set_minus _ _); simpl; [|done].
           by destruct (_use_expanded_resource _ _ _ _ _).
        -- by destruct (_use_expanded_resource _ _ _ _ _).
      * destruct (if String.eqb identifier "*:*" then _ else _); simpl;
          [|done].
        destruct (Nat.eqb _ 0); [done|]. simpl.
        by rewrite (dict_set_same _ _ _ Hget).
  - rewrite Hitem. simpl. unfold entry_step.
    destruct (req !! identifier) as [required|]; simpl.
    + destruct (_ || _); simpl.
      * destruct (update_method _); simpl; [|done].
        destruct (set_minus _ _); simpl; [|done].
        by destruct (_use_expanded_resource _ _ _ _ _).
      * by destruct (_use_expanded_resource _ _ _ _ _).
    + destruct (if String.eqb identifier "*:*" then _ else _); simpl;
        [|done].
      destruct (Nat.eqb _ 0); [done|]. simpl.
      by rewrite (dict_set_same _ _ _ Hget).
Qed.

End Statement.

(** ** Sanitizing in black mode *)

Section Sanitize.

Context (req : gmap string (gset string)).

Lemma sanitized_idemp (identifier : string) (entry : option container) :
  sanitized req identifier (sanitized req identifier entry)
  = sanitized req identifier entry.
Proof.
  unfold sanitized. destruct entry as [c|]; [|done].
  destruct (req !! identifier) as [required|] eqn:E; [|done].
  destruct (bool_decide (required ≠ {["*"]})) eqn:D; rewrite ?E, ?D; [|done].
  simpl. do 2 f_equal. set_solver.
Qed.

Lemma sanitize_key_get (final final' : Dict.t container) (key p : string) :
  sanitize_key req final key = Ok final' →
  Dict.get final' p
  = if String.eqb key p then sanitized req p (Dict.get final p)
    else Dict.get final p.
Proof.
  unfold sanitize_key, sanitized, Dict.item.
  destruct (String.eqb_spec key p) as [->|Hne].
  - destruct (req !! p) as [required|].
    + destruct (bool_decide (required ≠ {["*"]})).
      * destruct (Dict.get final p) as [[s|l]|]; simpl; try done.
        intros [= <-]. by rewrite dict_get_set_eq.
      * intros [= <-]. by destruct (Dict.get final p).
    + intros [= <-]. rewrite dict_get_pop, String.eqb_refl.
      by destruct (Dict.get final p).
  - destruct (req !! key) as [required|].
    + destruct (bool_decide (required ≠ {["*"]})).
      * destruct (Dict.get final key) as [[s|l]|]; simpl; try done.
        intros [= <-]. by rewrite dict_get_set_ne.
      * by intros [= <-].
    + intros [= <-]. rewrite dict_get_pop. by case_eqb.
Qed.

Lemma sanitize_loop_get (keys : list string) (final final' : Dict.t container)
    (p : string) :
  for_each (sanitize_key req) keys final = Ok final' →
  Dict.get final' p
  = if bool_decide (p ∈ keys) then sanitized req p (Dict.get final p)
    else Dict.get final p.
Proof.
  revert final. induction keys as [|k keys IH]; intros final; simpl.
  - by intros [= <-].
  - intros H. apply bind_ok in H as (final1 & H1 & H2).
    rewrite (IH _ H2), (sanitize_key_get _ _ _ p H1).
    destruct (String.eqb_spec k p) as [->|Hne].
    + rewrite (bool_decide_true (p ∈ p :: keys)) by set_solver.
      case_bool_decide; [apply sanitized_idemp|done].
    + case_bool_decide as Hin.
      * rewrite bool_decide_true by set_solver. done.
      * rewrite bool_decide_false; [done|].
        intros [?|?]%elem_of_cons; done.
Qed.

Lemma black_mode_sanitize_get (final final' : Dict.t container) (p : string) :
  _black_mode_sanitize final req = Ok final' →
  Dict.get final' p = sanitized req p (Dict.get final p).
Proof.
  intros H. rewrite (sanitize_loop_get _ _ _ p H).
  case_bool_decide as Hin; [done|].
  rewrite dict_get_keys in Hin.
  destruct (Dict.get final p); [|done]. exfalso. apply Hin. by eexists.
Qed.

(** Sanitizing only takes values away, and leaves nothing under an
    identifier that is not required. *)
Lemma sanitized_values (identifier : string) (entry : option container) :
  match sanitized req identifier entry with
  | Some c' =>
      ∃ c required, entry = Some c ∧ req !! identifier = Some required
        ∧ values c' ⊆ values c
        ∧ (required ≠ {["*"]} → values c' = values c ∩ required)
        ∧ (required = {["*"]} → c' = c)
  | None => True
  end.
Proof.
  unfold sanitized. destruct entry as [c|]; [|done].
  destruct (req !! identifier) as [required|]; [|done].
  case_bool_decide as D.
  - exists c, required. split_and!; try done. simpl. set_solver.
  - exists c, required. split_and!; done.
Qed.

End Sanitize.

(** ** The loop over the statements *)

Section Statements.

Context (sys : directories) (mode : string).
Context (req : gmap string (gset string)).

Lemma apply_statement_inv (final final' : Dict.t container)
    (black_negation black_negation' : gset string)
    (resource effect : string) :
  apply_statement sys mode req (final, black_negation) (resource, effect)
  = Ok (final', black_negation') →
  ∃ name attribute value entry,
    split colon resource = [name; attribute; value]
    ∧ entry_step req (identifier_of name attribute) value effect
        (expansion sys name attribute value)
        (prepared_entry sys mode final black_negation
           (identifier_of name attribute))
      = Ok entry
    ∧ final' = store (prepared sys mode final black_negation
                        (identifier_of name attribute))
                 (identifier_of name attribute) entry
    ∧ black_negation'
      = (if String.eqb mode "black"
         then black_negation ∪ {[identifier_of name attribute]}
         else black_negation).
Proof.
  intros H.
  destruct (split colon resource) as [|n [|a [|v [|? ?]]]] eqn:Hsplit;
    try (unfold apply_statement in H; rewrite Hsplit in H; discriminate H).
  rewrite (apply_statement_entry sys mode req _ _ _ _ _ _ _ Hsplit) in H.
  apply bind_ok in H as (entry & Hentry & [= <- <-]).
  by exists n, a, v, entry.
Qed.

Lemma store_prepared_get (final : Dict.t container)
    (black_negation : gset string) (identifier p : string)
    (entry : option container) :
  Dict.get (store (prepared sys mode final black_negation identifier)
                  identifier entry) p
  = if String.eqb identifier p then entry else Dict.get final p.
Proof.
  rewrite store_get, prepared_get. by destruct (String.eqb identifier p).
Qed.

(** A statement filed under another identifier leaves the entry alone. *)
Lemma apply_statement_other (state state' : Dict.t container * gset string)
    (statement : string * string) (p : string) :
  ¬ files_under p statement →
  apply_statement sys mode req state statement = Ok state' →
  Dict.get state'.1 p = Dict.get state.1 p.
Proof.
  destruct state as [f bn], state' as [f' bn'], statement as [r eff].
  intros Hother H.
  apply apply_statement_inv in H as (n & a & v & entry & Hs & _ & -> & _).
  simpl. rewrite store_prepared_get.
  destruct (String.eqb_spec (identifier_of n a) p) as [E|]; [|done].
  exfalso. apply Hother. by exists n, a, v.
Qed.

Lemma statements_other (statements : Dict.t string)
    (state state' : Dict.t container * gset string) (p : string) :
  (∀ statement, statement ∈ statements → ¬ files_under p statement) →
  for_each (apply_statement sys mode req) statements state = Ok state' →
  Dict.get state'.1 p = Dict.get state.1 p.
Proof.
  intros Hother H.
  apply (for_each_invariant
           (fun s => Dict.get s.1 p = Dict.get state.1 p) _ _ _ _) in H;
    [done| |done].
  intros s x s' Hx Hs Hstep. rewrite <- Hs.
  by apply (apply_statement_other s s' x p); [apply Hother|].
Qed.

(** No statement is filed under [agent:group]. *)
Lemma identifier_of_not_group (name attribute : string) :
  identifier_of name attribute ≠ "agent:group".
Proof.
  unfold identifier_of.
  destruct (String.eqb_spec (name +:+ ":" +:+ attribute) "agent:group");
    done.
Qed.

Lemma entry_step_not_required (identifier value effect : string)
    (expanded : container) (entry : option container) :
  req !! identifier = None →
  entry_step req identifier value effect expanded (PySet ∅) = Ok entry →
  entry = None.
Proof.
  unfold entry_step. intros ->. destruct (String.eqb identifier "*:*"); simpl.
  - by intros [= <-].
  - by intros [= <-].
Qed.

Lemma white_prepared_entry (final : Dict.t container)
    (black_negation : gset string) (identifier : string) :
  mode ≠ "black" →
  prepared_entry sys mode final black_negation identifier
  = default (PySet ∅) (Dict.get final identifier).
Proof.
  intros Hw. unfold prepared_entry.
  by destruct (String.eqb_spec mode "black").
Qed.

Lemma white_keys_required (state state' : Dict.t container * gset string)
    (statement : string * string) :
  mode ≠ "black" →
  keys_required req state.1 →
  apply_statement sys mode req state statement = Ok state' →
  keys_required req state'.1.
Proof.
  destruct state as [f bn], state' as [f' bn'], statement as [r eff].
  intros Hw Hkeys H p.
  apply apply_statement_inv in H as (n & a & v & entry & Hs & He & -> & _).
  simpl in *. rewrite store_prepared_get.
  destruct (String.eqb_spec (identifier_of n a) p) as [<-|Hne];
    [|apply Hkeys].
  intros Hsome. destruct (req !! identifier_of n a) eqn:Hreq; [done|].
  rewrite white_prepared_entry in He by done.
  destruct (Dict.get f (identifier_of n a)) eqn:Hget.
  - assert (is_Some (req !! identifier_of n a)) as [? Hc]
      by (apply Hkeys; by rewrite Hget).
    congruence.
  - simpl in He. apply entry_step_not_required in He; [|done].
    subst entry. by destruct Hsome.
Qed.

End Statements.

(** ** When the resolver returns

    The resolver raises on a resource that has not three parts and on a
    list where a set is wanted; lists come from [role:id] and
    [policy:id]. *)

Section Totality.

Context (sys : directories) (mode : string).
Context (req : gmap string (gset string)).

Lemma universe_is_set (identifier : string) :
  identifier ≠ "role:id" → identifier ≠ "policy:id" →
  is_set (universe sys identifier).
Proof.
  intros Hr Hp. unfold universe.
  repeat match goal with
         | |- context [String.eqb identifier ?k] =>
             destruct (String.eqb_spec identifier k);
             [first [congruence | by eexists]|]
         end.
  by eexists.
Qed.

Lemma identifier_of_plain (name attribute : string) :
  name +:+ ":" +:+ attribute ≠ "role:id" →
  name +:+ ":" +:+ attribute ≠ "policy:id" →
  identifier_of name attribute ≠ "role:id"
  ∧ identifier_of name attribute ≠ "policy:id".
Proof.
  intros Hr Hp. unfold identifier_of.
  by destruct (String.eqb_spec (name +:+ ":" +:+ attribute) "agent:group").
Qed.

Lemma expansion_is_set (name attribute value : string) :
  name +:+ ":" +:+ attribute ≠ "role:id" →
  name +:+ ":" +:+ attribute ≠ "policy:id" →
  is_set (expansion sys name attribute value).
Proof.
  intros Hr Hp. unfold expansion.
  destruct (String.eqb _ "agent:group"); [by eexists|].
  destruct (String.eqb value "*"); [by apply universe_is_set|by eexists].
Qed.

Lemma entry_step_sets (identifier value effect : string)
    (expanded current : container) :
  is_set expanded → is_set current →
  ∃ entry, entry_step req identifier value effect expanded current = Ok entry
           ∧ ∀ c, entry = Some c → is_set c.
Proof.
  intros [e ->] [s ->]. unfold entry_step, _use_expanded_resource.
  destruct (req !! identifier) as [required|].
  - destruct (_ || _); simpl.
    + destruct (bool_decide ("*" ∉ required)); simpl;
        destruct (String.eqb effect "allow"); simpl;
        try destruct (String.eqb value "*" && String.eqb effect "deny");
        simpl; eexists; (split; [done|]); intros ? [= <-]; by eexists.
    + destruct (bool_decide ("*" ∉ required)); simpl;
        destruct (String.eqb effect "allow"); simpl;
        try destruct (String.eqb value "*" && String.eqb effect "deny");
        simpl; eexists; (split; [done|]); intros ? [= <-]; by eexists.
  - destruct (String.eqb identifier "*:*"); simpl;
      destruct (Nat.eqb _ 0); eexists; (split; [done|]); intros ? [=];
      subst; by eexists.
Qed.

Lemma prepared_entry_is_set (final : Dict.t container)
    (black_negation : gset string) (identifier : string) :
  all_sets final →
  identifier ≠ "role:id" → identifier ≠ "policy:id" →
  is_set (prepared_entry sys mode final black_negation identifier).
Proof.
  intros Hsets Hr Hp. unfold prepared_entry.
  destruct (_ && _); [by apply universe_is_set|].
  destruct (Dict.get final identifier) eqn:E; simpl;
    [by eapply Hsets|by eexists].
Qed.

Lemma apply_statement_ok (state : Dict.t container * gset string)
    (statement : string * string) :
  plain statement.1 → all_sets state.1 →
  ∃ state', apply_statement sys mode req state statement = Ok state'
            ∧ all_sets state'.1.
Proof.
  destruct state as [f bn], statement as [r eff]. cbn [fst].
  intros (n & a & v & Hs & Hr & Hp) Hsets.
  rewrite (apply_statement_entry sys mode req _ _ _ _ _ _ _ Hs).
  destruct (identifier_of_plain n a Hr Hp) as [Hr' Hp'].
  destruct (entry_step_sets (identifier_of n a) v eff
              (expansion sys n a v)
              (prepared_entry sys mode f bn (identifier_of n a)))
    as (entry & -> & Hentry).
  { by apply expansion_is_set. }
  { by apply prepared_entry_is_set. }
  simpl. eexists. split; [done|]. simpl. intros p c.
  rewrite store_prepared_get.
  destruct (String.eqb (identifier_of n a) p); [apply Hentry|apply Hsets].
Qed.

Lemma statements_ok (statements : Dict.t string)
    (state : Dict.t container * gset string) :
  Forall (fun statement => plain statement.1) statements →
  all_sets state.1 →
  ∃ state', for_each (apply_statement sys mode req) statements state
            = Ok state'
            ∧ all_sets state'.1.
Proof.
  revert state. induction statements as [|x l IH]; intros state Hall Hsets.
  - by exists state.
  - apply Forall_cons in Hall as [Hx Hl].
    destruct (apply_statement_ok state x Hx Hsets) as (s1 & H1 & Hs1).
    destruct (IH s1 Hl Hs1) as (s2 & H2 & Hs2).
    exists s2. split; [|done]. simpl. by rewrite H1.
Qed.

Lemma sanitize_loop_ok (keys : list string) (final : Dict.t container) :
  all_sets final →
  (∀ k, k ∈ keys → is_Some (req !! k) → is_Some (Dict.get final k)) →
  ∃ final', for_each (sanitize_key req) keys final = Ok final'.
Proof.
  revert final. induction keys as [|k keys IH]; intros final Hsets Hkeys.
  - by eexists.
  - simpl.
    assert (∃ final1, sanitize_key req final k = Ok final1
                      ∧ all_sets final1
                      ∧ ∀ k', is_Some (req !! k') →
                              is_Some (Dict.get final k') →
                              is_Some (Dict.get final1 k'))
      as (final1 & H1 & Hs1 & Hk1).
    { unfold sanitize_key, Dict.item.
      destruct (req !! k) as [required|] eqn:Hreq.
      - destruct (bool_decide (required ≠ {["*"]})); [|by eexists].
        destruct (Hkeys k) as [c E]; [by left|done|]. rewrite E.
        destruct (Hsets _ _ E) as [s ->]. simpl. eexists.
        split_and!; [done| |].
        + intros p c. rewrite dict_get_set.
          destruct (String.eqb k p); [intros [= <-]; by eexists|apply Hsets].
        + intros k' _. rewrite dict_get_set.
          by destruct (String.eqb k k').
      - eexists. split_and!; [done| |].
        + intros p c. rewrite dict_get_pop.
          destruct (String.eqb k p); [done|apply Hsets].
        + intros k' Hk'. rewrite dict_get_pop.
          destruct (String.eqb_spec k k') as [<-|]; [|done].
          rewrite Hreq in Hk'. by destruct Hk'. }
    rewrite H1. simpl. apply IH; [done|].
    intros k' Hin Hk'. apply Hk1; [done|]. apply Hkeys; [by right|done].
Qed.

Lemma black_mode_sanitize_ok (final : Dict.t container) :
  all_sets final → is_ok (_black_mode_sanitize final req).
Proof.
  intros Hsets. apply sanitize_loop_ok; [done|].
  intros k Hk _. by apply dict_get_keys.
Qed.

End Totality.

(** ** No statement in black mode *)

Section Default.

Context (sys : directories).

Lemma default_allow_get (final : Dict.t container) (resource : string) :
  three_parts resource → all_sets final →
  ∃ final',
    default_allow sys final resource = Ok final'
    ∧ all_sets final'
    ∧ ∀ p, Dict.get final' p
           = if has_prefix p resource
             then Some (PySet (if String.eqb p "*:*" then {["*"]}
                               else permitted final p
                                    ∪ expanded_values sys resource))
             else Dict.get final p.
Proof.
  intros (n & a & v & Hs) Hsets. unfold default_allow, has_prefix.
  destruct (String.eqb_spec (prefix_of_resource resource) "*:*") as [E|Hne].
  - eexists. split_and!; [done| |].
    + intros p c. rewrite dict_get_set.
      destruct (String.eqb "*:*" p); [intros [= <-]; by eexists|apply Hsets].
    + intros p. rewrite dict_get_set, E.
      destruct (String.eqb_spec "*:*" p) as [<-|]; done.
  - unfold expanded_values.
    rewrite (expand_resource_three sys _ _ _ _ Hs). simpl.
    set (expanded := if String.eqb _ "agent:group" then _ else _).
    set (identifier := prefix_of_resource resource) in *.
    set (final1 := if Dict.mem final identifier then final
                   else Dict.set final identifier (PySet ∅)).
    assert (∃ s, Dict.get final1 identifier = Some (PySet s)
                 ∧ s = permitted final identifier) as (s & Hget & Hperm).
    { unfold final1, Dict.mem, permitted.
      destruct (Dict.get final identifier) as [c|] eqn:Hc.
      - destruct (Hsets _ _ Hc) as [s ->]. by exists s.
      - exists ∅. by rewrite dict_get_set_eq. }
    unfold Dict.item. rewrite Hget. simpl. eexists. split_and!; [done| |].
    + intros p c. rewrite dict_get_set.
      destruct (String.eqb_spec identifier p) as [<-|Hp];
        [intros [= <-]; by eexists|].
      unfold final1. destruct (Dict.mem final identifier); [apply Hsets|].
      rewrite dict_get_set_ne by done. apply Hsets.
    + intros p. rewrite dict_get_set.
      destruct (String.eqb_spec identifier p) as [<-|Hp].
      * destruct (String.eqb_spec identifier "*:*"); [done|].
        by rewrite Hperm.
      * unfold final1. destruct (Dict.mem final identifier); [done|].
        by rewrite dict_get_set_ne.
Qed.

Lemma default_loop_get (req_resources : list string)
    (final : Dict.t container) :
  Forall three_parts req_resources → all_sets final →
  ∃ final',
    for_each (default_allow sys) req_resources final = Ok final'
    ∧ all_sets final'
    ∧ ∀ p, Dict.get final' p
           = if existsb (has_prefix p) req_resources
             then Some (PySet (if String.eqb p "*:*" then {["*"]}
                               else permitted final p
                                    ∪ default_grant sys req_resources p))
             else Dict.get final p.
Proof.
  revert final.
  induction req_resources as [|r l IH]; intros final Hall Hsets.
  - by exists final.
  - apply Forall_cons in Hall as [Hr Hl].
    destruct (default_allow_get final r Hr Hsets) as (f1 & H1 & Hs1 & Hg1).
    destruct (IH f1 Hl Hs1) as (f2 & H2 & Hs2 & Hg2).
    exists f2. split_and!; [simpl; by rewrite H1|done|].
    intros p. rewrite Hg2. unfold permitted, default_grant. rewrite Hg1.
    simpl. destruct (String.eqb_spec p "*:*") as [->|Hp].
    + by destruct (has_prefix "*:*" r), (existsb _ l).
    + destruct (has_prefix p r) eqn:Hpr; simpl; [|done].
      destruct (existsb _ l) eqn:Hex.
      * do 2 f_equal. set_solver.
      * rewrite (filter_none _ _ Hex). simpl. do 2 f_equal. set_solver.
Qed.

End Default.

(** C7. In black mode, an action for which the user has no statement (no
    entry for the action, or an empty one) is resolved, for required
    resources of three parts, to: [{'*'}] under [*:*] when a resource of
    that prefix is required, and under every other required prefix the
    union of the expansions of the required resources of that prefix;
    nothing else. Required [agent:id:*] alone gives all the agents. *)
Theorem black_default_allow (sys : directories) (req_resources : list string)
    (action : string) (statements : gmap string (Dict.t string)) :
  Forall three_parts req_resources →
  statements !! action = None ∨ statements !! action = Some [] →
  ∃ final,
    _match_permissions sys "black" [(action, req_resources)]
      (PRbac statements) = Ok final
    ∧ _permissions_processing sys "black" req_resources [] Dict.empty
      = Ok final
    ∧ (∀ p, Dict.get final p
            = if existsb (has_prefix p) req_resources
              then Some (PySet (default_grant sys req_resources p))
              else None)
    ∧ (req_resources = ["agent:id:*"] →
       final = [("agent:id", PySet (get_agents_info sys))]).
Proof.
  intros Hall Hnone.
  destruct (default_loop_get sys req_resources Dict.empty Hall)
    as (final & Hrun & _ & Hget); [done|].
  assert (_permissions_processing sys "black" req_resources [] Dict.empty
          = Ok final) as Hproc by exact Hrun.
  exists final. split_and!.
  - unfold _match_permissions. cbn -[_permissions_processing].
    unfold Dict.empty in *. destruct Hnone as [-> | ->]; by rewrite Hproc.
  - done.
  - intros p. rewrite Hget. destruct (existsb _ _); [|done].
    unfold default_grant, permitted. simpl.
    destruct (String.eqb p "*:*"); [done|]. by rewrite (left_id_L ∅ (∪)).
  - intros ->. cbn in Hrun. rewrite (left_id_L ∅ (∪)) in Hrun. congruence.
Qed.

Lemma black_default_allow_witness :
  _permissions_processing sys0 "black" ["agent:id:*"] [] Dict.empty
  = Ok [("agent:id", PySet {["001"; "002"; "003"]})].
Proof.
  destruct (black_default_allow sys0 ["agent:id:*"] "agent:read" ∅)
    as (final & _ & Hrun & _ & Hfinal).
  - repeat constructor. by exists "agent", "id", "*".
  - left. reflexivity.
  - rewrite Hrun, (Hfinal eq_refl). reflexivity.
Defined.

(** ** The resolver returns on plain statements *)

Lemma sanitized_is_set (req : gmap string (gset string))
    (final final' : Dict.t container) :
  all_sets final → _black_mode_sanitize final req = Ok final' →
  all_sets final'.
Proof.
  intros Hsets H p c. rewrite (black_mode_sanitize_get req _ _ p H).
  unfold sanitized. destruct (Dict.get final p) as [c0|] eqn:E; [|done].
  destruct (req !! p); [|done].
  destruct (bool_decide _); intros [= <-]; [by eexists|by eapply Hsets].
Qed.

Lemma keys_length_nil {V} (d : Dict.t V) :
  Nat.eqb (length (Dict.keys d)) 0 = true ↔ d = [].
Proof. destruct d; simpl; split; done. Qed.

Lemma permissions_processing_ok (sys : directories) (mode : string)
    (req_resources : list string) (statements : Dict.t string)
    (final : Dict.t container) :
  all_sets final →
  Forall (fun statement => plain statement.1) statements →
  (statements = [] → mode = "black" → Forall three_parts req_resources) →
  ∃ final',
    _permissions_processing sys mode req_resources statements final
    = Ok final'
    ∧ all_sets final'.
Proof.
  intros Hsets Hplain Hreq. unfold _permissions_processing.
  destruct (Nat.eqb (length (Dict.keys statements)) 0
            && String.eqb mode "black") eqn:Hcase.
  - apply andb_true_iff in Hcase as [Hnil Hblack].
    apply keys_length_nil in Hnil. apply String.eqb_eq in Hblack.
    destruct (default_loop_get sys req_resources final (Hreq Hnil Hblack) Hsets)
      as (final' & H & Hs & _).
    by exists final'.
  - destruct (statements_ok sys mode (required_values req_resources)
                statements (final, ∅) Hplain Hsets) as ([f1 bn] & H1 & Hs1).
    rewrite H1. simpl in *.
    destruct (String.eqb mode "black").
    + destruct (black_mode_sanitize_ok (required_values req_resources) f1 Hs1)
        as [f2 H2].
      exists f2. split; [done|]. by eapply sanitized_is_set.
    + by exists f1.
Qed.

(** ** A wildcard deny clears the entry *)

Lemma entry_step_deny_all (req : gmap string (gset string))
    (identifier : string) (expanded current : container)
    (entry : option container) :
  entry_step req identifier "*" "deny" expanded current = Ok entry →
  match entry with
  | Some c => values c = ∅ ∨ (req !! identifier = None ∧ c = current)
  | None => True
  end.
Proof.
  unfold entry_step, _use_expanded_resource.
  destruct (req !! identifier) as [required|].
  - simpl. intros H. apply bind_ok in H as (c2 & _ & H).
    apply bind_ok in H as (c3 & H & [= <-]).
    apply bind_ok in H as (e & _ & [= <-]). left. by destruct c2.
  - intros H. apply bind_ok in H as (_ & _ & [= <-]).
    destruct (Nat.eqb _ 0); [done|]. by right.
Qed.

(** C5. A statement that denies the wildcard of an identifier, with no
    statement filed under the same identifier after it, leaves no
    permitted value under that identifier, whatever comes before it and in
    either mode; the resolver starts from permissions that hold entries of
    required identifiers only, as it does for an action. An [agent:group]
    statement is filed under [agent:id]; its own prefix has no entry
    either. The resolver does return when the statements are plain. *)
Theorem deny_all_precedence (sys : directories) (mode : string)
    (req_resources : list string) (before after : Dict.t string)
    (resource name attribute : string) (final : Dict.t container) :
  split colon resource = [name; attribute; "*"] →
  (∀ statement, statement ∈ after →
                ¬ files_under (identifier_of name attribute) statement) →
  keys_required (required_values req_resources) final →
  let statements := before ++ (resource, "deny") :: after in
  (∀ final',
     _permissions_processing sys mode req_resources statements final
     = Ok final' →
     permitted final' (identifier_of name attribute) = ∅
     ∧ (Dict.get final (name +:+ ":" +:+ attribute) = None →
        permitted final' (name +:+ ":" +:+ attribute) = ∅))
  ∧ (all_sets final →
     Forall (fun statement => plain statement.1) statements →
     is_ok (_permissions_processing sys mode req_resources statements final)).
Proof.
  intros Hsplit Hafter Hkeys statements. split.
  2:{ intros Hsets Hplain.
      destruct (permissions_processing_ok sys mode req_resources statements
                  final Hsets Hplain) as (f & H & _); [|by exists f].
      intros Hnil. by destruct before. }
  intros final' Hrun. unfold _permissions_processing in Hrun.
  set (req := required_values req_resources) in *.
  assert (Nat.eqb (length (Dict.keys statements)) 0 = false) as Hlen.
  { unfold statements, Dict.keys. rewrite length_map, length_app.
    simpl. apply Nat.eqb_neq. lia. }
  rewrite Hlen in Hrun. simpl in Hrun.
  apply bind_ok in Hrun as ([f3 bn3] & Hloop & Hend).
  unfold statements in Hloop. rewrite for_each_app in Hloop.
  apply bind_ok in Hloop as ([f1 bn1] & Hbefore & Hloop).
  simpl in Hloop. apply bind_ok in Hloop as ([f2 bn2] & Hstep & Hafter').
  (* the entry after the wildcard deny *)
  pose proof Hstep as Hstep'.
  apply apply_statement_inv in Hstep'
    as (n & a & v & entry & Hs & Hentry & Hf2 & _).
  rewrite Hsplit in Hs. injection Hs as <- <- <-.
  set (identifier := identifier_of name attribute) in *.
  assert (Dict.get f2 identifier = entry) as Hget2.
  { rewrite Hf2, store_prepared_get. by rewrite String.eqb_refl. }
  assert (Dict.get f3 identifier = entry) as Hget3.
  { rewrite <- Hget2.
    apply (statements_other sys mode req after (f2, bn2) (f3, bn3)); done. }
  apply entry_step_deny_all in Hentry.
  assert (mode ≠ "black" → keys_required req f1) as Hkeys1.
  { intros Hw.
    apply (for_each_invariant (fun s => keys_required req s.1) _ _ _ _)
      in Hbefore; [done| |done].
    intros s x s' _. by apply white_keys_required. }
  assert (permitted final' identifier = ∅) as Hid.
  { unfold permitted.
    destruct (String.eqb_spec mode "black") as [Hb|Hw].
    - rewrite (black_mode_sanitize_get req _ _ identifier Hend), Hget3.
      pose proof (sanitized_values req identifier entry) as Hsan.
      destruct (sanitized req identifier entry) as [c'|]; [|done].
      destruct Hsan as (c & required & -> & Hreq & Hsub & _).
      destruct Hentry as [Hempty|[Hnone _]]; [set_solver|congruence].
    - injection Hend as <-. rewrite Hget3.
      destruct entry as [c|]; [|done].
      destruct Hentry as [Hempty|[Hnone ->]]; [done|].
      rewrite white_prepared_entry by done.
      destruct (Dict.get f1 identifier) as [c1|] eqn:E1; [|done].
      assert (is_Some (req !! identifier)) as [? ?]
        by (apply (Hkeys1 Hw); by rewrite E1).
      congruence. }
  split; [exact Hid|].
  intros Hnone. unfold identifier, identifier_of in Hid.
  destruct (String.eqb_spec (name +:+ ":" +:+ attribute) "agent:group")
    as [Hgroup|]; [|exact Hid].
  rewrite Hgroup in *.
  assert (Dict.get f3 "agent:group" = None) as Hg3.
  { rewrite <- Hnone.
    apply (statements_other sys mode req statements (final, ∅) (f3, bn3)).
    - intros statement _ (n & a & v & _ & Hid').
      by apply (identifier_of_not_group n a).
    - unfold statements. rewrite for_each_app, Hbefore. simpl.
      by rewrite Hstep. }
  unfold permitted. destruct (String.eqb mode "black").
  - by rewrite (black_mode_sanitize_get req _ _ _ Hend), Hg3.
  - injection Hend as <-. by rewrite Hg3.
Qed.

Lemma keys_required_empty (req : gmap string (gset string)) :
  keys_required req Dict.empty.
Proof. intros p [c H]. discriminate H. Qed.

(** C5 on [agent:id:001] allowed, then [agent:id:*] denied, then a
    statement on groups. *)
Lemma deny_all_precedence_witness :
  ∃ final',
    _permissions_processing sys0 "white" ["agent:id:001"; "agent:id:002"]
      ([("agent:id:001", "allow")]
         ++ ("agent:id:*", "deny") :: [("group:id:groupA", "allow")])
      Dict.empty
    = Ok final'
    ∧ permitted final' "agent:id" = ∅.
Proof.
  exists [("agent:id", PySet ∅)]. split; [reflexivity|].
  destruct (deny_all_precedence sys0 "white" ["agent:id:001"; "agent:id:002"]
              [("agent:id:001", "allow")] [("group:id:groupA", "allow")]
              "agent:id:*" "agent" "id" Dict.empty) as [Hclear _].
  - reflexivity.
  - intros statement Hin (n & a & v & Hs & Hid).
    apply list_elem_of_singleton in Hin. subst statement.
    injection Hs as <- <- <-. discriminate Hid.
  - apply keys_required_empty.
  - exact (proj1 (Hclear [("agent:id", PySet ∅)] eq_refl)).
Defined.

(** ** No value beyond what is required *)

Section Within.

Context (sys : directories) (mode : string).
Context (req_resources : list string).

Local Abbreviation req := (required_values req_resources).

Lemma within_keys_required (final : Dict.t container) :
  within_required req_resources final → keys_required req final.
Proof. intros H p [c Hc]. destruct (H p c Hc) as (R & -> & _). by eexists. Qed.

Lemma within_required_empty : within_required req_resources Dict.empty.
Proof. intros p c H. discriminate H. Qed.

Lemma entry_step_within (identifier value effect : string)
    (expanded current c : container) (required : gset string) :
  req !! identifier = Some required →
  "*" ∈ required ∨ values current ⊆ required →
  entry_step req identifier value effect expanded current = Ok (Some c) →
  "*" ∈ required ∨ values c ⊆ required.
Proof.
  intros Hreq Hcur. unfold entry_step, _use_expanded_resource. rewrite Hreq.
  destruct (decide ("*" ∈ required)) as [Hin|Hout]; [by left|].
  destruct Hcur as [?|Hcur]; [done|]. intros H. right.
  rewrite (bool_decide_true ("*" ∉ required)) in H by done.
  apply bind_ok in H as (c2 & H2 & H).
  apply bind_ok in H as (c3 & H3 & [= <-]).
  apply bind_ok in H3 as (e & He & H3).
  assert (values c2 ⊆ required) as Hc2.
  { destruct (_ || _).
    - apply bind_ok in H2 as (bound & Hb & H2).
      apply bind_ok in H2 as (missing & Hm & [= <-]).
      destruct current as [s|l]; [|done]. injection Hb as <-.
      destruct expanded as [s'|l']; [|done]. injection Hm as <-.
      simpl in *. set_solver.
    - by injection H2 as <-. }
  assert (values e ⊆ required) as Hev.
  { destruct expanded as [s'|l']; [|done]. injection He as <-. simpl.
    set_solver. }
  destruct (String.eqb effect "allow").
  - destruct c2 as [s|l]; [|done]. injection H3 as <-. simpl in *. set_solver.
  - destruct (String.eqb value "*" && String.eqb effect "deny").
    + injection H3 as <-. destruct c2; simpl; set_solver.
    + destruct c2 as [s|l]; [|done]. injection H3 as <-. simpl in *.
      set_solver.
Qed.

Lemma white_within (state state' : Dict.t container * gset string)
    (statement : string * string) :
  mode ≠ "black" →
  within_required req_resources state.1 →
  apply_statement sys mode req state statement = Ok state' →
  within_required req_resources state'.1.
Proof.
  destruct state as [f bn], state' as [f' bn'], statement as [r eff].
  intros Hw Hwithin H p c.
  pose proof (white_keys_required sys mode req (f, bn) (f', bn') (r, eff) Hw
                (within_keys_required f Hwithin) H) as Hkeys.
  apply apply_statement_inv in H as (n & a & v & entry & Hs & He & -> & _).
  simpl in *. rewrite store_prepared_get.
  destruct (String.eqb_spec (identifier_of n a) p) as [<-|Hne];
    [|apply Hwithin].
  intros ->.
  destruct (Hkeys (identifier_of n a)) as [required Hreq].
  { rewrite store_prepared_get, String.eqb_refl. by eexists. }
  exists required. split; [done|].
  rewrite white_prepared_entry in He by done.
  eapply entry_step_within; [exact Hreq| |exact He].
  destruct (Dict.get f (identifier_of n a)) as [c0|] eqn:E; simpl.
  - destruct (Hwithin _ _ E) as (R & HR & Hc0).
    rewrite Hreq in HR. by injection HR as <-.
  - right. set_solver.
Qed.

Lemma sanitize_within (final final' : Dict.t container) :
  _black_mode_sanitize final req = Ok final' →
  within_required req_resources final'.
Proof.
  intros H p c'. rewrite (black_mode_sanitize_get req _ _ p H).
  pose proof (sanitized_values req p (Dict.get final p)) as Hsan.
  intros E. rewrite E in Hsan.
  destruct Hsan as (c & required & _ & Hreq & _ & Hne & Heq).
  exists required. split; [done|].
  destruct (decide (required = {["*"]})) as [->|Hd]; [left; set_solver|].
  right. rewrite (Hne Hd). set_solver.
Qed.

Lemma default_allow_within (final final' : Dict.t container)
    (resource : string) :
  default_within req_resources → resource ∈ req_resources →
  within_required req_resources final →
  default_allow sys final resource = Ok final' →
  within_required req_resources final'.
Proof.
  intros [Hgroup Hstar] Hin Hwithin. unfold default_allow.
  destruct (required_values_elem req_resources resource Hin)
    as (required & Hreq & Hvalue). fold req in Hreq.
  set (identifier := prefix_of_resource resource) in *.
  destruct (String.eqb_spec identifier "*:*") as [E|Hne].
  - intros [= <-] p c. rewrite dict_get_set.
    destruct (String.eqb_spec "*:*" p) as [<-|]; [|apply Hwithin].
    intros [= <-]. rewrite E in Hreq. exists required. split; [done|].
    left. by apply Hstar.
  - intros H. apply bind_ok in H as (expanded & Hexp & H).
    apply bind_ok in H as (current & Hcur & H).
    apply bind_ok in H as (updated & Hupd & [= <-]).
    intros p c. rewrite dict_get_set.
    destruct (String.eqb_spec identifier p) as [<-|Hp].
    + intros [= <-]. exists required. split; [done|].
      destruct (decide ("*" ∈ required)) as [?|Hout]; [by left|]. right.
      assert (values current ⊆ required) as Hc.
      { unfold Dict.item, Dict.mem in Hcur.
        destruct (Dict.get final identifier) as [c0|] eqn:E0.
        - rewrite E0 in Hcur. injection Hcur as <-.
          destruct (Hwithin _ _ E0) as (R & HR & HR').
          rewrite Hreq in HR. injection HR as <-. by destruct HR'.
        - rewrite dict_get_set_eq in Hcur. injection Hcur as <-. set_solver. }
      assert (values expanded ⊆ required) as He.
      { unfold _expand_resource in Hexp.
        destruct (split colon resource) as [|n [|a [|v [|? ?]]]] eqn:Hs;
          try done.
        destruct (prefix_of_three _ _ _ _ Hs) as [Hpre Hval].
        fold identifier in Hpre. rewrite Hval in Hvalue.
        change (join ":" [n; a]) with (n +:+ ":" +:+ a) in Hexp.
        rewrite <- Hpre in Hexp.
        destruct (String.eqb_spec identifier "agent:group") as [Eg|];
          [congruence|].
        destruct (String.eqb_spec v "*") as [->|]; [done|].
        injection Hexp as <-. simpl. set_solver. }
      destruct current as [s|l]; [|done]. injection Hupd as <-.
      simpl in *. set_solver.
    + intros Hget. apply (Hwithin p c).
      destruct (Dict.mem final identifier); [done|].
      by rewrite dict_get_set_ne in Hget.
Qed.

(** One action: the statements of the user for it, on permissions that
    are within what is required. *)
Lemma permissions_processing_within (statements : Dict.t string)
    (final final' : Dict.t container) :
  mode ≠ "black" ∨ statements ≠ [] ∨ default_within req_resources →
  within_required req_resources final →
  _permissions_processing sys mode req_resources statements final
  = Ok final' →
  within_required req_resources final'.
Proof.
  intros Hguard Hwithin. unfold _permissions_processing. fold req.
  destruct (Nat.eqb (length (Dict.keys statements)) 0
            && String.eqb mode "black") eqn:Hcase.
  - apply andb_true_iff in Hcase as [Hnil Hblack].
    apply keys_length_nil in Hnil. apply String.eqb_eq in Hblack.
    destruct Hguard as [?|[?|Hdefault]]; [done|done|].
    intros H.
    apply (for_each_invariant (within_required req_resources) _ _ _ _)
      in H; [done| |done].
    intros s x s' Hx. by apply default_allow_within.
  - intros H. apply bind_ok in H as ([f1 bn1] & Hloop & Hend).
    destruct (String.eqb_spec mode "black") as [Hb|Hw].
    + by apply sanitize_within in Hend.
    + injection Hend as <-.
      apply (for_each_invariant
               (fun s => within_required req_resources s.1) _ _ _ _)
        in Hloop; [done| |done].
      intros s x s' _. by apply white_within.
Qed.

End Within.

(** ** The resolver over the actions of a call *)

Lemma dict_set_elem {V} (d : Dict.t V) (k : string) (v : V) (x : string * V) :
  x ∈ Dict.set d k v → x ∈ d ∨ x = (k, v).
Proof.
  induction d as [|[k0 v0] d IH]; simpl.
  - intros ->%list_elem_of_singleton. by right.
  - destruct (String.eqb_spec k0 k) as [->|Hne].
    + intros [->|H]%elem_of_cons; [by right|left; by right].
    + intros [->|H]%elem_of_cons; [left; by left|].
      destruct (IH H) as [?|?]; [left; by right|by right].
Qed.

Lemma required_permissions_elem (actions res_list : list string)
    (action : string) (resources : list string) :
  (action, resources) ∈ required_permissions actions res_list →
  resources = res_list ∧ action ∈ actions.
Proof.
  unfold required_permissions.
  assert (∀ d : Dict.t (list string),
            (∀ a rs, (a, rs) ∈ d → rs = res_list ∧ a ∈ actions) →
            ∀ l, l ⊆ actions →
            (action, resources)
            ∈ fold_left (fun req a => Dict.set req a res_list) l d →
            resources = res_list ∧ action ∈ actions) as Hgen.
  { intros d Hd l. revert d Hd.
    induction l as [|a l IH]; intros d Hd Hl; simpl; [by apply Hd|].
    apply IH; [|set_solver].
    intros a' rs [H| [= -> ->]]%dict_set_elem; [by apply Hd|].
    split; [done|set_solver]. }
  apply Hgen; [|done]. intros a rs H. by apply elem_of_nil in H.
Qed.

(** C1, as specified, fails in black mode for a user without statements
    when a group is required: the group expands to its agents, 010 and
    011, which are not the required value [groupA]. *)
Lemma no_over_grant_counterexample : ¬ no_over_grant_as_specified.
Proof.
  intros H.
  specialize (H sys0 "black" ["agent:read"] ["agent:group:groupA"] (PRbac ∅)
                (or_intror eq_refl)
                [("agent:group", PySet {["010"; "011"]})] eq_refl
                "agent:group" {["groupA"]} "010" eq_refl).
  assert ("010" ∈ ({["groupA"]} : gset string)) as Hin.
  { apply H; [|unfold permitted; simpl; set_solver].
    intros [=]%elem_of_singleton. }
  apply elem_of_singleton in Hin. discriminate Hin.
Qed.

(** C1, amended. The permitted values stay within the required values in
    white mode, and in black mode when the user has a statement for every
    action of the call; for an action without statements in black mode
    they do when no resource of prefix [agent:group] is required and the
    wildcard is among the values required of [*:*]. *)
Theorem no_over_grant (sys : directories) (mode : string)
    (actions req_resources : list string) (rbac : pyarg) :
  mode ≠ "black"
  ∨ (∃ statements, rbac = PRbac statements
       ∧ ∀ action, action ∈ actions →
                   ∃ l, statements !! action = Some l ∧ l ≠ [])
  ∨ default_within req_resources →
  over_grant_free sys mode actions req_resources rbac.
Proof.
  intros Hguard allow Hrun identifier required value Hreq Hstar Hvalue.
  assert (within_required req_resources allow) as Hwithin.
  { unfold _match_permissions in Hrun.
    apply (for_each_invariant (within_required req_resources) _ _ _ _)
      in Hrun; [done| |apply within_required_empty].
    intros s [a rs] s' Hin Hs Hstep.
    apply required_permissions_elem in Hin as [-> Ha].
    apply bind_ok in Hstep as (found & Hfound & Hstep).
    destruct rbac as [| | |statements|]; try done.
    injection Hfound as <-.
    destruct (statements !! a) as [l|] eqn:Hl.
    - eapply permissions_processing_within; [|exact Hs|exact Hstep].
      destruct Hguard as [?|[(st & [= <-] & Hall)|?]]; [by left| |by eauto].
      destruct (Hall a Ha) as (l' & Hl' & Hne). right; left. congruence.
    - eapply permissions_processing_within; [|exact Hs|exact Hstep].
      destruct Hguard as [?|[(st & [= <-] & Hall)|?]]; [by left| |by eauto].
      destruct (Hall a Ha) as (l' & Hl' & Hne). congruence. }
  unfold permitted in Hvalue.
  destruct (Dict.get allow identifier) as [c|] eqn:E; [|set_solver].
  destruct (Hwithin _ _ E) as (R & HR & Hc).
  rewrite Hreq in HR. injection HR as <-. destruct Hc; [done|set_solver].
Qed.

(** C1 in black mode on the example of the code: the user is allowed the
    agent 005 and asks for the agent 001. *)
Lemma no_over_grant_witness :
  over_grant_free sys0 "black" ["agent:read"] ["agent:id:001"]
    (PRbac {["agent:read" := [("agent:id:005", "allow")]]}).
Proof.
  apply (no_over_grant sys0 "black" ["agent:read"] ["agent:id:001"]
           (PRbac {["agent:read" := [("agent:id:005", "allow")]]})).
  right; left. eexists. split; [reflexivity|].
  intros action ->%list_elem_of_singleton. eexists. split; [reflexivity|done].
Defined.

(** ** The parser of required resources *)

Section Parser.

Context (str_of_statements : gmap string (Dict.t string) → string).
Context (kwargs : gmap string pyarg).

Local Abbreviation parse := (parse_resource str_of_statements kwargs).

Lemma parse_placeholder (state : list string * list string * bool)
    (resource : string) (m : template_match) (name : string) :
  match_template resource = Some m → group3 m = Some name →
  ((∃ e, parse state resource = Raise e) ↔ kwargs !! name = Some (PList []))
  ∧ (kwargs !! name = Some (PList []) →
     parse state resource = Raise (WazuhError 4015 (Some name)))
  ∧ (kwargs !! name = None →
     parse state resource
     = Ok (state.1.1 ++ [group1 m +:+ "*"], state.1.2 ++ [name], false)).
Proof.
  intros Hm Hname. destruct state as [[rl tp] ad]. unfold parse_resource.
  rewrite Hm, Hname. simpl.
  destruct (kwargs !! name) as [[l| | | |]|] eqn:E; simpl.
  - destruct l as [|x l]; simpl.
    + split_and!; [split; eauto|done|done].
    + split_and!; [split; [by intros [? ?]|done]|done|done].
  - destruct (String.eqb s "*");
      (split_and!; [split; [by intros [? ?]|done]|done|done]).
  - split_and!; [split; [by intros [? ?]|done]|done|done].
  - split_and!; [split; [by intros [? ?]|done]|done|done].
  - split_and!; [split; [by intros [? ?]|done]|done|done].
  - split_and!; [split; [by intros [? ?]|done]|done|done].
Qed.

(** One template: the resources and the targets grow at the end, and
    [add_denied] turns true only on a placeholder bound to [None] or to
    ['*']. *)
Lemma parse_extends (state state' : list string * list string * bool)
    (resource : string) :
  parse state resource = Ok state' →
  (∃ more, state'.1.1 = state.1.1 ++ more)
  ∧ (∃ more, state'.1.2 = state.1.2 ++ more)
  ∧ (state.2 = false → ¬ binds_wildcard kwargs resource → state'.2 = false).
Proof.
  destruct state as [[rl tp] ad], state' as [[rl' tp'] ad'].
  unfold parse_resource. simpl.
  destruct (match_template resource) as [m|] eqn:Hm; [|done].
  destruct (group3 m) as [name|] eqn:Hname.
  - destruct (kwargs !! name) as [params|] eqn:E.
    + destruct params as [l| | | |] eqn:Hp; simpl.
      * destruct (Nat.eqb (length l) 0); [done|].
        intros [= <- <- <-]. split_and!; by eauto.
      * destruct (String.eqb s "*") eqn:Hs; intros [= <- <- <-];
          (split_and!; [by eauto|by eauto|]); [|done].
        intros _ Hno. exfalso. apply Hno.
        exists m, name, (PStr s). by rewrite E.
      * intros [= <- <- <-]. split_and!; [by eauto|by eauto|].
        intros _ Hno. exfalso. apply Hno. by exists m, name, PNone.
      * intros [= <- <- <-]. split_and!; by eauto.
      * intros [= <- <- <-]. split_and!; by eauto.
    + intros [= <- <- <-]. split_and!; by eauto.
  - intros [= <- <- <-]. split_and!; by eauto.
Qed.

Lemma parse_loop_extends (resources : list string)
    (state state' : list string * list string * bool) :
  for_each parse resources state = Ok state' →
  (∃ more, state'.1.1 = state.1.1 ++ more)
  ∧ (∃ more, state'.1.2 = state.1.2 ++ more)
  ∧ (state.2 = false → (∀ r, r ∈ resources → ¬ binds_wildcard kwargs r) →
     state'.2 = false).
Proof.
  revert state. induction resources as [|r l IH]; intros state; simpl.
  - intros [= <-]. split_and!; [by exists []; rewrite app_nil_r..|done].
  - intros H. apply bind_ok in H as (s1 & H1 & H2).
    apply parse_extends in H1 as ((m1 & E1) & (m2 & E2) & Hd1).
    apply IH in H2 as ((m1' & E1') & (m2' & E2') & Hd2).
    split_and!.
    + exists (m1 ++ m1'). by rewrite E1', E1, app_assoc.
    + exists (m2 ++ m2'). by rewrite E2', E2, app_assoc.
    + intros Hf Hno. apply Hd2.
      * apply Hd1; [done|]. apply Hno. by left.
      * intros r' Hr'. apply Hno. by right.
Qed.

(** The parser raises error 4015 for a parameter only when the parameter
    is bound to the empty list. *)
Lemma parse_loop_missing (resources : list string)
    (state : list string * list string * bool) (name : string) :
  for_each parse resources state = Raise (WazuhError 4015 (Some name)) →
  kwargs !! name = Some (PList []).
Proof.
  revert state. induction resources as [|r l IH]; intros state; simpl;
    [done|].
  destruct (parse state r) as [s1|e] eqn:H1; simpl; [apply IH|].
  intros [= ->]. destruct state as [[rl tp] ad].
  unfold parse_resource in H1.
  destruct (match_template r) as [m|]; [|done].
  destruct (group3 m) as [n|]; [|done].
  destruct (kwargs !! n) as [[items| | | |]|] eqn:E; simpl in H1; try done.
  - destruct items; simpl in H1; [|done]. by injection H1 as <-.
  - by destruct (String.eqb s "*").
Qed.

End Parser.

Lemma required_permissions_get (actions res_list : list string)
    (action : string) :
  action ∈ actions →
  Dict.get (required_permissions actions res_list) action = Some res_list.
Proof.
  unfold required_permissions.
  assert (∀ l (d : Dict.t (list string)),
            Dict.get (fold_left (fun req a => Dict.set req a res_list) l d)
                     action
            = if bool_decide (action ∈ l) then Some res_list
              else Dict.get d action) as Hgen.
  { induction l as [|a l IH]; intros d; simpl; [done|].
    rewrite IH, dict_get_set.
    destruct (String.eqb_spec a action) as [->|Hne].
    - rewrite (bool_decide_true (action ∈ action :: l)) by set_solver.
      by case_bool_decide.
    - case_bool_decide as Hin.
      + by rewrite bool_decide_true by set_solver.
      + rewrite bool_decide_false; [done|].
        intros [?|?]%elem_of_cons; done. }
  intros Hin. rewrite Hgen. by rewrite bool_decide_true.
Qed.

(** C8, as specified, fails on two templates: [agent_list] is not bound,
    and the parser returns [add_denied = True] because [group_list], which
    comes after it, is bound to [None]. *)
Lemma placeholder_parsing_counterexample : ¬ placeholder_parsing_as_specified.
Proof.
  intros H.
  destruct (H (fun _ => "") ["agent:read"]
              ["agent:id:{agent_list}"; "group:id:{group_list}"]
              {["group_list" := PNone]}
              "agent:id:{agent_list}"
              {| group1 := "agent:id:"; group2 := "{agent_list}";
                 group3 := Some "agent_list" |}
              "agent_list") as [_ Habsent];
    [by left|reflexivity|reflexivity|].
  destruct Habsent as (targets & required & Hrun); [reflexivity|].
  vm_compute in Hrun. discriminate Hrun.
Qed.

(** C8, amended. At a template with placeholder [name] that the parser
    reaches, the parser fails exactly when [name] is bound to the empty
    list, with error 4015 on [name], which is then the error of the whole
    call; no call fails with error 4015 on a name that is not bound to the
    empty list. When [name] is not bound the parser adds [prefix:*] to the
    required resources of every action and sets [add_denied] to false,
    which is what it returns unless a later template has its placeholder
    bound to [None] or ['*']. *)
Theorem placeholder_parsing
    (str_of_statements : gmap string (Dict.t string) → string)
    (actions before after : list string) (kwargs : gmap string pyarg)
    (resource : string) (m : template_match) (name : string)
    (res_list targets : list string) (denied : bool) :
  match_template resource = Some m → group3 m = Some name →
  for_each (parse_resource str_of_statements kwargs) before ([], [], true)
  = Ok (res_list, targets, denied) →
  let resources := before ++ resource :: after in
  let parser :=
    _get_required_permissions str_of_statements actions resources kwargs in
  ((∃ e, parse_resource str_of_statements kwargs (res_list, targets, denied)
           resource = Raise e)
   ↔ kwargs !! name = Some (PList []))
  ∧ (kwargs !! name = Some (PList []) →
     parser = Raise (WazuhError 4015 (Some name)))
  ∧ (∀ other, parser = Raise (WazuhError 4015 (Some other)) →
              kwargs !! other = Some (PList []))
  ∧ (kwargs !! name = None →
     ∀ targets' required add_denied',
       parser = Ok (targets', required, add_denied') →
       (∀ action, action ∈ actions →
          ∃ resources', Dict.get required action = Some resources'
                        ∧ resources' !! length res_list
                          = Some (group1 m +:+ "*"))
       ∧ targets' !! length targets = Some name
       ∧ ((∀ r, r ∈ after → ¬ binds_wildcard kwargs r) →
          add_denied' = false)).
Proof.
  intros Hm Hname Hbefore resources parser.
  destruct (parse_placeholder str_of_statements kwargs
              (res_list, targets, denied) resource m name Hm Hname)
    as (Hiff & Hempty & Habsent).
  set (state := (res_list, targets, denied)) in *.
  set (rest := for_each (parse_resource str_of_statements kwargs)
                 (resource :: after) state).
  assert (parser
          = rest ≫= (fun '(res_list, target_params, add_denied) =>
                       Ok (target_params,
                           required_permissions actions res_list,
                           add_denied))) as Hparser.
  { unfold parser, resources, _get_required_permissions.
    by rewrite for_each_app, Hbefore. }
  assert (rest = parse_resource str_of_statements kwargs state resource
                 ≫= for_each (parse_resource str_of_statements kwargs) after)
    as Hrest by reflexivity.
  rewrite Hparser. clearbody parser rest. split_and!.
  - exact Hiff.
  - intros E. by rewrite Hrest, (Hempty E).
  - intros other H. destruct rest as [[[rl tp] ad]|e] eqn:Hrun; [done|].
    injection H as ->. symmetry in Hrest.
    by apply (parse_loop_missing str_of_statements kwargs
                (resource :: after) state).
  - intros E targets' required add_denied' H.
    rewrite (Habsent E) in Hrest. subst rest.
    apply bind_ok in H as ([[rl tp] ad] & Hafter & [= <- <- <-]).
    apply parse_loop_extends in Hafter
      as ((more1 & E1) & (more2 & E2) & Hdenied).
    simpl in *. split_and!.
    + intros action Ha. exists rl.
      split; [by apply required_permissions_get|].
      rewrite E1, <- app_assoc. by rewrite lookup_app_r, Nat.sub_diag.
    + rewrite E2, <- app_assoc. by rewrite lookup_app_r, Nat.sub_diag.
    + intros Hno. by apply Hdenied.
Qed.

(** C8 on the exposed resources [agent:id:{agent_list}] and
    [group:id:{group_list}], called with the groups only. *)
Lemma placeholder_parsing_witness :
  ∃ targets required add_denied,
    _get_required_permissions (fun _ => "") ["agent:read"]
      (["group:id:{group_list}"] ++ "agent:id:{agent_list}" :: [])
      {["group_list" := PList ["default"]]}
    = Ok (targets, required, add_denied)
    ∧ targets !! 1 = Some "agent_list"
    ∧ add_denied = false.
Proof.
  exists ["group_list"; "agent_list"],
         [("agent:read", ["group:id:default"; "agent:id:*"])], false.
  split; [reflexivity|].
  destruct (placeholder_parsing (fun _ => "") ["agent:read"]
              ["group:id:{group_list}"] []
              {["group_list" := PList ["default"]]}
              "agent:id:{agent_list}"
              {| group1 := "agent:id:"; group2 := "{agent_list}";
                 group3 := Some "agent_list" |}
              "agent_list" ["group:id:default"] ["group_list"] true)
    as (_ & _ & _ & Habsent); [reflexivity..|].
  destruct (Habsent eq_refl ["group_list"; "agent_list"]
              [("agent:read", ["group:id:default"; "agent:id:*"])] false
              eq_refl) as (_ & Htarget & Hdenied).
  split; [exact Htarget|].
  apply Hdenied. intros r Hr. by apply elem_of_nil in Hr.
Defined.

(** ** The keys of the permissions *)




Section Keys.

Context (sys : directories) (mode : string).
Context (req_resources : list string).

Local Abbreviation req := (required_values req_resources).







End Keys.

(** ** The gate *)







Section Wrapper.

Context {R : Type}.
Context (sys : directories) (mode : string).
Context (str_of_statements : gmap string (Dict.t string) → string).
Context (actions resources : list string) (stack : bool).
Context (func : gmap string pyarg → result R).
Context (post_proc_func : option (R → authorized → result R)).

Local Abbreviation authorize_call :=
  (authorize sys mode str_of_statements actions resources stack).
Local Abbreviation wrapper_call :=
  (wrapper sys mode str_of_statements actions resources stack func
           post_proc_func).

(** Whatever [wrapper] raises before the call, the function is not
    called. *)
Lemma wrapper_raise (kwargs : gmap string pyarg) (e : exn) :
  authorize_call kwargs = Raise e → wrapper_call kwargs = ([], Raise e).
Proof. unfold wrapper. by intros ->. Qed.


Lemma authorize_gate (kwargs : gmap string pyarg) (rbac : pyarg)
    (targets : list string) (required : Dict.t (list string))
    (denied : bool) (allowed : Dict.t container) :
  kwargs !! "actions" = None → kwargs !! "resources" = None →
  kwargs !! "rbac" = Some rbac →
  _get_required_permissions str_of_statements actions resources kwargs
  = Ok (targets, required, denied) →
  _match_permissions sys mode required rbac = Ok allowed →
  authorize_call kwargs
  = (kwargs' ←
       for_each (enforce_target allowed) (enumerate targets)
         (if stack then kwargs else delete "rbac" kwargs);
     Ok {| call_kwargs := kwargs';
           original_kwargs := if stack then kwargs else delete "rbac" kwargs;
           allow := allowed; target_params := targets;
           add_denied := denied |}).
Proof.
  intros Ha Hr Hrbac Hparse Hmatch. unfold authorize.
  rewrite Ha, Hr, Hparse, Hrbac. simpl. by rewrite Hmatch.
Qed.

End Wrapper.




(** ** White mode and black mode on the same statements *)

Section Duality.

Context (sys : directories).
Context (req_resources : list string).

Local Abbreviation req := (required_values req_resources).

Lemma entry_step_mirrored (identifier value : string)
    (expanded white black : container) (required : gset string)
    (white' black' : option container) :
  req !! identifier = Some required →
  identifier ≠ "*:*" →
  (value = "*" → "*" ∈ required →
   values (universe sys identifier) ⊆ values expanded) →
  mirrored sys identifier required white black →
  entry_step req identifier value "allow" expanded white = Ok white' →
  entry_step req identifier value "deny" expanded black = Ok black' →
  ∃ cw cb, white' = Some cw ∧ black' = Some cb
           ∧ mirrored sys identifier required cw cb.
Proof.
  intros Hreq Hne Hcover Hrel. unfold entry_step, _use_expanded_resource.
  rewrite Hreq. destruct (String.eqb_spec identifier "*:*"); [done|].
  simpl. intros Hw Hb.
  apply bind_ok in Hw as (w2 & Hw2 & Hw).
  apply bind_ok in Hw as (w3 & Hw3 & [= <-]).
  apply bind_ok in Hw3 as (ew & Hew & Hw3).
  apply bind_ok in Hb as (b3 & Hb3 & [= <-]).
  apply bind_ok in Hb3 as (eb & Heb & Hb3).
  assert (eb = ew) as -> by congruence. clear Heb.
  exists w3, b3. split_and!; [done|done|].
  destruct w2 as [sw2|]; [|done]. injection Hw3 as <-.
  destruct (decide ("*" ∈ required)) as [Hstar|Hstar].
  - rewrite (bool_decide_false ("*" ∉ required)) in * by (by intros ?).
    simpl in *. injection Hw2 as ->. injection Hew as <-.
    destruct (String.eqb_spec value "*") as [->|Hv]; simpl in *.
    + injection Hb3 as <-. intros x _.
      assert (values (clear black) = ∅) as -> by (by destruct black).
      specialize (Hcover eq_refl Hstar). set_solver.
    + destruct black as [sb|]; [|done]. injection Hb3 as <-.
      intros x Hx. specialize (Hrel x Hx). simpl in *. set_solver.
  - rewrite (bool_decide_true ("*" ∉ required)) in * by done.
    simpl in *. destruct expanded as [se|]; [|done]. injection Hew as <-.
    destruct (String.eqb_spec value "*") as [->|Hv]; simpl in *.
    + destruct white as [sw|]; [|done]. injection Hw2 as <-.
      injection Hb3 as <-. intros x [?|Hx]; [done|].
      assert (values (clear black) = ∅) as -> by (by destruct black).
      simpl. destruct (decide (x ∈ se)); set_solver.
    + injection Hw2 as ->. destruct black as [sb|]; [|done].
      injection Hb3 as <-. intros x Hx. specialize (Hrel x Hx).
      simpl in *. set_solver.
Qed.

Lemma expansion_covers (resources : list string) (r n a : string) :
  groups_cover sys resources → r ∈ resources →
  split colon r = [n; a; "*"] →
  values (universe sys (identifier_of n a))
  ⊆ values (expansion sys n a "*").
Proof.
  intros Hcover Hin Hs. unfold identifier_of, expansion.
  destruct (String.eqb_spec (n +:+ ":" +:+ a) "agent:group") as [E|Hne].
  - simpl. apply Hcover.
    destruct (split_three_inv _ _ _ _ Hs) as (Hr & _).
    assert (r = "agent:group:*") as <-; [|done].
    rewrite Hr. change "agent:group:*" with ("agent:group" +:+ ":*").
    rewrite <- E. by rewrite !append_assoc.
  - done.
Qed.

Lemma duality_step (resources : list string) (r : string)
    (white black white' black' : Dict.t container)
    (bnw bnw' bn bn' : gset string) :
  groups_cover sys resources → r ∈ resources →
  in_step sys req_resources white black bn →
  apply_statement sys "white" req (white, bnw) (r, "allow")
  = Ok (white', bnw') →
  apply_statement sys "black" req (black, bn) (r, "deny")
  = Ok (black', bn') →
  in_step sys req_resources white' black' bn'
  ∧ bn ⊆ bn'
  ∧ ∀ n a v, split colon r = [n; a; v] → identifier_of n a ∈ bn'.
Proof.
  intros Hcover Hin Hstep Hw Hb.
  apply apply_statement_inv in Hw as (n & a & v & ew & Hs & Hew & -> & _).
  apply apply_statement_inv in Hb as (n' & a' & v' & eb & Hs' & Heb & -> & ->).
  rewrite Hs in Hs'. injection Hs' as <- <- <-.
  set (identifier := identifier_of n a) in *. simpl.
  split_and!; [|set_solver|].
  2:{ intros n' a' v' Hs'. rewrite Hs in Hs'. injection Hs' as <- <- <-.
      set_solver. }
  intros p required Hreq Hp.
  rewrite !store_prepared_get.
  destruct (String.eqb_spec identifier p) as [<-|Hne].
  - split; [|set_solver]. intros _.
    rewrite white_prepared_entry in Hew by done.
    destruct (Hstep identifier required Hreq Hp) as [Hmet Hnew].
    eapply (entry_step_mirrored identifier v _ _ _ required ew eb Hreq Hp);
      [| |exact Hew|exact Heb].
    + intros -> _. by eapply expansion_covers.
    + unfold prepared_entry. simpl.
      destruct (decide (identifier ∈ bn)) as [Hbn|Hbn].
      * rewrite bool_decide_false by (by intros ?).
        destruct (Hmet Hbn) as (cw & cb & -> & -> & Hrel). done.
      * rewrite bool_decide_true by done. rewrite (Hnew Hbn). simpl.
        intros x _. set_solver.
  - destruct (Hstep p required Hreq Hp) as [Hmet Hnew]. split.
    + intros Hbn. apply Hmet. set_solver.
    + intros Hbn. apply Hnew. set_solver.
Qed.

Lemma duality_loop (resources statements : list string)
    (white black : Dict.t container) (bnw bn : gset string)
    (sw sb : Dict.t container * gset string) :
  groups_cover sys resources → statements ⊆ resources →
  in_step sys req_resources white black bn →
  for_each (apply_statement sys "white" req) (allowing statements)
    (white, bnw) = Ok sw →
  for_each (apply_statement sys "black" req) (denying statements)
    (black, bn) = Ok sb →
  in_step sys req_resources sw.1 sb.1 sb.2
  ∧ bn ⊆ sb.2
  ∧ ∀ r n a v, r ∈ statements → split colon r = [n; a; v] →
               identifier_of n a ∈ sb.2.
Proof.
  intros Hcover. revert white black bnw bn.
  induction statements as [|r l IH]; intros white black bnw bn Hsub Hstep.
  - simpl. intros [= <-] [= <-]. split_and!; [done|done|].
    intros r n a v Hr. by apply elem_of_nil in Hr.
  - cbn -[apply_statement]. intros Hw Hb.
    apply bind_ok in Hw as ([w1 bnw1] & Hw1 & Hw).
    apply bind_ok in Hb as ([b1 bn1] & Hb1 & Hb).
    destruct (duality_step resources r white black w1 b1 bnw bnw1 bn bn1)
      as (Hstep1 & Hbn1 & Hid1); [done|set_solver|done|done|done|].
    destruct (IH w1 b1 bnw1 bn1) as (Hend & Hbn & Hids);
      [set_solver|done|done|done|].
    split_and!; [done|set_solver|].
    intros r' n a v [->|Hr']%elem_of_cons Hs.
    + apply Hbn. by eapply Hid1.
    + by eapply Hids.
Qed.

End Duality.

(** C3, as specified, fails when the wildcard is not what is required:
    with the agents 001 and 002 required, of 001, 002 and 003, and one
    statement on 001, white mode ends with 001 and black mode with 002. *)
Lemma mode_duality_counterexample : ¬ mode_duality_as_specified.
Proof.
  intros H.
  destruct (H sys0 ["agent:id:001"; "agent:id:002"] ["agent:id:001"]
              [("agent:id", PySet {["001"]})]
              [("agent:id", PySet {["002"]})] eq_refl eq_refl "agent:id")
    as [_ Hunion]; [by eexists|].
  assert ("003" ∈ permitted [("agent:id", PySet {["001"]})] "agent:id"
                  ∪ permitted [("agent:id", PySet {["002"]})] "agent:id")
    as Hin.
  { rewrite Hunion. unfold universe, sys0. simpl. set_solver. }
  unfold permitted in Hin. simpl in Hin. set_solver.
Qed.

(** C3, amended. On a required identifier other than [*:*] under which a
    statement is filed, the final set of black mode under the denials is
    what the final set of white mode under the allows leaves of the
    universe of the identifier, among the required values (of the whole
    universe when exactly the wildcard is required); the two sets are
    disjoint. A statement [agent:group:*] counts as the wildcard of the
    agents, so the groups must cover the agents. The two runs do return
    on plain statements. *)
Theorem mode_duality (sys : directories)
    (req_resources statements : list string) :
  groups_cover sys statements →
  let white_run :=
    _permissions_processing sys "white" req_resources (allowing statements)
      Dict.empty in
  let black_run :=
    _permissions_processing sys "black" req_resources (denying statements)
      Dict.empty in
  (∀ white black,
     white_run = Ok white → black_run = Ok black →
     ∀ p required,
       required_values req_resources !! p = Some required →
       p ≠ "*:*" →
       (∃ r effect, r ∈ statements ∧ files_under p (r, effect)) →
       ∀ x, x ∈ permitted black p
            ↔ x ∈ values (universe sys p)
              ∧ (required = {["*"]} ∨ x ∈ required)
              ∧ x ∉ permitted white p)
  ∧ (Forall plain statements → statements ≠ [] →
     is_ok white_run ∧ is_ok black_run).
Proof.
  intros Hcover white_run black_run. split.
  2:{ intros Hplain Hne. split.
      - destruct (permissions_processing_ok sys "white" req_resources
                    (allowing statements) Dict.empty) as (f & H & _);
          [done| |done|by exists f].
        unfold allowing. by apply Forall_fmap.
      - destruct (permissions_processing_ok sys "black" req_resources
                    (denying statements) Dict.empty) as (f & H & _);
          [done| | |by exists f].
        + unfold denying. by apply Forall_fmap.
        + intros Hnil _. by destruct statements. }
  intros white black Hwhite Hblack p required Hreq Hp
         (r & effect & Hr & n & a & v & Hs & Hid) x.
  simpl in Hs.
  set (req := required_values req_resources) in *.
  unfold white_run, _permissions_processing in Hwhite.
  unfold black_run, _permissions_processing in Hblack.
  fold req in Hwhite, Hblack.
  assert (Nat.eqb (List.length (Dict.keys (denying statements))) 0 = false)
    as Hlen.
  { destruct statements; [by apply elem_of_nil in Hr|done]. }
  rewrite Hlen in Hblack. rewrite andb_false_r in Hwhite. simpl in *.
  apply bind_ok in Hwhite as ([fw bnw] & Hloopw & [= <-]).
  apply bind_ok in Hblack as ([fb bn] & Hloopb & Hsanitize).
  destruct (duality_loop sys req_resources statements statements
              Dict.empty Dict.empty ∅ ∅ (fw, bnw) (fb, bn))
    as (Hstep & _ & Hmet); [done|done| |done|done|].
  { intros p' R' _ _. split; [set_solver|done]. }
  simpl in *.
  destruct (Hstep p required Hreq Hp) as [Hthere _].
  destruct Hthere as (cw & cb & Hcw & Hcb & Hrel).
  { rewrite <- Hid. by eapply Hmet. }
  unfold permitted.
  rewrite (black_mode_sanitize_get req _ _ p Hsanitize), Hcw, Hcb.
  unfold sanitized. rewrite Hreq.
  destruct (decide (required = {["*"]})) as [->|Hd].
  - rewrite bool_decide_false by (by intros ?).
    specialize (Hrel x). set_solver.
  - rewrite bool_decide_true by done. simpl.
    specialize (Hrel x). set_solver.
Qed.

(** C3 on the agents 001 and 002 required and one statement on 001. *)
Lemma mode_duality_witness :
  ∃ white black,
    _permissions_processing sys0 "white" ["agent:id:001"; "agent:id:002"]
      (allowing ["agent:id:001"]) Dict.empty = Ok white
    ∧ _permissions_processing sys0 "black" ["agent:id:001"; "agent:id:002"]
        (denying ["agent:id:001"]) Dict.empty = Ok black
    ∧ ("002" ∈ permitted black "agent:id"
       ↔ "002" ∈ values (universe sys0 "agent:id")
         ∧ (({["001"; "002"]} : gset string) = {["*"]}
            ∨ "002" ∈ ({["001"; "002"]} : gset string))
         ∧ "002" ∉ permitted white "agent:id").
Proof.
  exists [("agent:id", PySet {["001"]})], [("agent:id", PySet {["002"]})].
  split; [reflexivity|]. split; [reflexivity|].
  destruct (mode_duality sys0 ["agent:id:001"; "agent:id:002"]
              ["agent:id:001"]) as [Hdual _].
  - intros Hin. apply list_elem_of_singleton in Hin. discriminate Hin.
  - apply (Hdual [("agent:id", PySet {["001"]})]
                 [("agent:id", PySet {["002"]})] eq_refl eq_refl
                 "agent:id" {["001"; "002"]}).
    + reflexivity.
    + discriminate.
    + exists "agent:id:001", "allow". split; [by left|].
      by exists "agent", "id", "001".
Defined.

(** * Further properties of the code *)

(** ** The required values of a call *)

(** X1. The first loop of [_permissions_processing] files the required
    resources by prefix: a value is required of an identifier exactly when
    one of the required resources has that prefix and that value, and an
    identifier has no required values exactly when no required resource
    has its prefix. *)
Theorem required_values_spec (req_resources : list string)
    (identifier : string) :
  (∀ value,
     (∃ required, required_values req_resources !! identifier = Some required
                  ∧ value ∈ required)
     ↔ ∃ r, r ∈ req_resources ∧ prefix_of_resource r = identifier
            ∧ value_of_resource r = value)
  ∧ (required_values req_resources !! identifier = None
     ↔ ∀ r, r ∈ req_resources → prefix_of_resource r ≠ identifier).
Proof.
  rewrite required_values_lookup. split.
  - intros value. split.
    + intros (required & Hreq & Hin).
      destruct (existsb _ _); [|done]. injection Hreq as <-.
      unfold required_of in Hin.
      apply elem_of_list_to_set, list_elem_of_fmap in Hin as (r & -> & Hr).
      apply list_elem_of_In, filter_In in Hr as [Hr Hp].
      exists r. split_and!; [by apply list_elem_of_In| |done].
      by apply String.eqb_eq.
    + intros (r & Hr & <- & <-).
      destruct (required_values_elem req_resources r Hr) as (R & HR & Hin).
      rewrite required_values_lookup in HR. by exists R.
  - split.
    + intros Hnone r Hr Hp.
      destruct (required_values_elem req_resources r Hr) as (R & HR & _).
      rewrite required_values_lookup, Hp in HR.
      destruct (existsb _ _); done.
    + intros Hall. destruct (existsb _ _) eqn:E; [|done].
      apply existsb_exists in E as (r & Hr & Hp).
      apply String.eqb_eq in Hp. exfalso.
      by apply (Hall r); [apply list_elem_of_In|].
Qed.

(** ** What the resolver raises *)

Section Raises.

Context (sys : directories) (mode : string).
Context (req : gmap string (gset string)).

Lemma expand_resource_raise (resource : string) (e : exn) :
  _expand_resource sys resource = Raise e →
  e = ValueError ∧ ¬ three_parts resource.
Proof.
  intros H. destruct (expand_resource_ok sys resource) as [_ Hok].
  split.
  - unfold _expand_resource in H.
    destruct (split colon resource) as [|n [|a [|v [|? ?]]]];
      try (by injection H as <-).
    repeat (destruct (String.eqb _ _); try done).
  - intros Hthree. destruct (Hok Hthree) as [c Hc]. congruence.
Qed.

Lemma entry_step_raise (identifier value effect : string)
    (expanded current : container) (e : exn) :
  entry_step req identifier value effect expanded current = Raise e →
  list_error e.
Proof.
  unfold entry_step, _use_expanded_resource, list_error.
  destruct (req !! identifier) as [required|].
  - destruct (_ || _); simpl.
    + destruct current as [s|l]; simpl; [|intros [= <-]; by left].
      destruct expanded as [s'|l']; simpl; [|intros [= <-]; by right].
      destruct (bool_decide _); simpl;
        destruct (String.eqb effect "allow"); simpl; try done;
        destruct (_ && _); simpl; done.
    + destruct (bool_decide _); simpl.
      * destruct expanded as [s'|l']; simpl; [|intros [= <-]; by left].
        destruct (String.eqb effect "allow"); simpl.
        -- destruct current; simpl; [done|intros [= <-]; by left].
        -- destruct (_ && _); simpl; [done|].
           destruct current; simpl; [done|intros [= <-]; by left].
      * destruct (String.eqb effect "allow"); simpl.
        -- destruct current; simpl; [done|intros [= <-]; by left].
        -- destruct (_ && _); simpl; [done|].
           destruct current; simpl; [done|intros [= <-]; by left].
  - destruct (String.eqb identifier "*:*"); simpl; [|done].
    destruct current; simpl; [done|intros [= <-]; by left].
Qed.

Lemma apply_statement_raise (state : Dict.t container * gset string)
    (statement : string * string) (e : exn) :
  apply_statement sys mode req state statement = Raise e →
  (e = ValueError ∧ ¬ three_parts statement.1) ∨ list_error e.
Proof.
  destruct state as [f bn], statement as [r eff]. intros H.
  destruct (split colon r) as [|n [|a [|v [|? ?]]]] eqn:Hs;
    try (left; unfold apply_statement in H; rewrite Hs in H;
         injection H as <-; split; [done|];
         intros (? & ? & ? & Hs'); simpl in Hs'; congruence).
  right. rewrite (apply_statement_entry sys mode req _ _ _ _ _ _ _ Hs) in H.
  destruct (entry_step _ _ _ _ _ _) as [entry|e'] eqn:E; [done|].
  injection H as <-. by eapply entry_step_raise.
Qed.

Lemma sanitize_loop_raise (keys : list string) (final : Dict.t container)
    (e : exn) :
  (∀ k, k ∈ keys → is_Some (req !! k) → is_Some (Dict.get final k)) →
  for_each (sanitize_key req) keys final = Raise e →
  e = AttributeError.
Proof.
  revert final. induction keys as [|k keys IH]; intros final Hkeys; simpl;
    [done|].
  destruct (sanitize_key req final k) as [final1|e1] eqn:H1; simpl.
  - apply IH. intros k' Hin Hk'.
    rewrite (sanitize_key_get req _ _ k k' H1).
    destruct (String.eqb_spec k k') as [<-|Hne];
      [|apply Hkeys; [by right|done]].
    destruct (Hkeys k) as [c Hc]; [by left|done|].
    destruct Hk' as [required Hreq]. unfold sanitized. rewrite Hc, Hreq.
    by destruct (bool_decide _).
  - intros [= <-]. unfold sanitize_key, Dict.item in H1.
    destruct (req !! k) as [required|] eqn:Hreq; [|done].
    destruct (bool_decide _); [|done].
    destruct (Hkeys k) as [c Hc]; [by left|done|]. rewrite Hc in H1.
    simpl in H1. destruct c; simpl in H1; [done|]. by injection H1 as <-.
Qed.

Lemma default_allow_raise (final : Dict.t container) (resource : string)
    (e : exn) :
  default_allow sys final resource = Raise e →
  (e = ValueError ∧ ¬ three_parts resource) ∨ list_error e.
Proof.
  unfold default_allow.
  destruct (String.eqb _ "*:*"); [done|].
  destruct (_expand_resource sys resource) as [expanded|e'] eqn:E; simpl.
  - set (identifier := prefix_of_resource resource).
    unfold Dict.item, Dict.mem.
    destruct (Dict.get final identifier) as [c|] eqn:Hc.
    + rewrite Hc. simpl. destruct c; simpl; [done|].
      intros [= <-]. right. by left.
    + rewrite dict_get_set_eq. simpl. done.
  - intros [= <-]. left. by eapply expand_resource_raise.
Qed.

End Raises.

Lemma for_each_raise {A S} (P : exn → A → Prop) (body : S → A → result S)
    (l : list A) (s : S) (e : exn) :
  (∀ s x e, x ∈ l → body s x = Raise e → P e x) →
  for_each body l s = Raise e → ∃ x, x ∈ l ∧ P e x.
Proof.
  revert s. induction l as [|x l IH]; intros s Hbody; simpl; [done|].
  destruct (body s x) as [s'|e'] eqn:E; simpl.
  - intros H. destruct (IH s') as (y & Hy & HP); [|done|].
    + intros s0 y e0 Hy. apply Hbody. by right.
    + exists y. split; [by right|done].
  - intros [= <-]. exists x. split; [by left|]. by eapply Hbody; [left|].
Qed.

(** X2. The resolver raises nothing but [ValueError], on a statement or,
    without statements in black mode, a required resource that has not
    three parts, and [AttributeError] or [TypeError], where a list stands
    for a set. It never raises [KeyError]: the handler of
    [_match_permissions] is only entered for an action that the user has
    no statements for. *)
Theorem permissions_processing_raises (sys : directories) (mode : string)
    (req_resources : list string) (statements : Dict.t string)
    (final : Dict.t container) (e : exn) :
  _permissions_processing sys mode req_resources statements final = Raise e →
  (e = ValueError
   ∧ ((∃ statement, statement ∈ statements ∧ ¬ three_parts statement.1)
      ∨ (statements = [] ∧ ∃ r, r ∈ req_resources ∧ ¬ three_parts r)))
  ∨ e = AttributeError ∨ e = TypeError.
Proof.
  unfold _permissions_processing.
  destruct (Nat.eqb (List.length (Dict.keys statements)) 0
            && String.eqb mode "black") eqn:Hcase.
  - apply andb_true_iff in Hcase as [Hnil _].
    apply keys_length_nil in Hnil. intros H.
    apply (for_each_raise
             (fun e r => (e = ValueError ∧ ¬ three_parts r) ∨ list_error e))
      in H as (r & Hr & [[-> Hthree]|Hlist]).
    + left. split; [done|]. right. split; [done|]. by exists r.
    + by right.
    + intros s x e0 _. apply default_allow_raise.
  - destruct (for_each _ statements _) as [[f1 bn1]|e1] eqn:Hloop; simpl.
    + destruct (String.eqb mode "black"); [|done]. intros H.
      apply sanitize_loop_raise in H as ->; [by right; left|].
      intros k Hk _. by apply dict_get_keys.
    + intros [= <-].
      apply (for_each_raise
               (fun e statement =>
                  (e = ValueError ∧ ¬ three_parts statement.1)
                  ∨ list_error e))
        in Hloop as (statement & Hin & [[-> Hthree]|Hlist]).
      * left. split; [done|]. left. by exists statement.
      * by right.
      * intros s x e0 _. apply apply_statement_raise.
Qed.

(** X2 on a statement of two parts. *)
Lemma permissions_processing_raises_witness :
  ∃ statement,
    statement ∈ [("agent:001", "allow")] ∧ ¬ three_parts statement.1.
Proof.
  destruct (permissions_processing_raises sys0 "white" ["agent:id:001"]
              [("agent:001", "allow")] Dict.empty ValueError eq_refl)
    as [[_ [H|[H _]]]|[H|H]]; [exact H|discriminate H..].
Defined.


(** ** Where the permitted values come from *)

Lemma entry_step_origin (req : gmap string (gset string))
    (identifier value effect : string) (expanded current c : container) :
  identifier ≠ "*:*" →
  entry_step req identifier value effect expanded current = Ok (Some c) →
  ∀ x, x ∈ values c →
       x ∈ values current
       ∨ (effect = "allow"
          ∧ (x ∈ values expanded
             ∨ (value = "*"
                ∧ ∃ required, req !! identifier = Some required
                              ∧ x ∈ required))).
Proof.
  intros Hne. unfold entry_step, _use_expanded_resource.
  destruct (String.eqb_spec identifier "*:*"); [done|].
  destruct (req !! identifier) as [required|] eqn:Hreq; simpl.
  - intros H x. apply bind_ok in H as (c2 & H2 & H).
    apply bind_ok in H as (c3 & H3 & [= <-]).
    apply bind_ok in H3 as (e & He & H3).
    assert (values e ⊆ values expanded) as Hsub.
    { destruct (bool_decide _); [|by injection He as <-].
      destruct expanded; [|done]. injection He as <-. simpl. set_solver. }
    destruct (String.eqb_spec effect "allow") as [->|Heff]; simpl in *.
    + destruct c2 as [s2|]; [|done]. injection H3 as <-. simpl.
      intros [Hx|Hx]%elem_of_union; [|right; split; [done|left; set_solver]].
      destruct (bool_decide _ && String.eqb value "*") eqn:Hcond.
      * apply andb_true_iff in Hcond as [_ ->%String.eqb_eq].
        apply bind_ok in H2 as (bound & Hb & H2).
        apply bind_ok in H2 as (missing & Hm & [= E2]).
        destruct current as [s|]; [|done]. injection Hb as <-.
        destruct expanded as [s'|]; [|done]. injection Hm as <-.
        injection E2 as <-.
        simpl in Hx. apply elem_of_union in Hx as [Hx|Hx]; [by left|].
        right. split; [done|]. right. split; [done|].
        exists required. split; [done|set_solver].
      * injection H2 as E2. rewrite E2. by left.
    + injection H2 as E2. rewrite E2. intros Hx. left.
      destruct (_ && _).
      * injection H3 as <-. destruct c2; simpl in Hx; set_solver.
      * destruct c2 as [s2|]; [|done]. injection H3 as <-. simpl in *.
        set_solver.
  - intros H. destruct (Nat.eqb _ 0); [done|]. injection H as <-.
    by left.
Qed.

(** X4. Outside black mode the resolver grants through statements that
    allow, and through nothing else: under an identifier other than [*:*]
    a permitted value was permitted before the action was resolved, or
    some statement filed under the identifier allows it, by its expansion
    or, for a wildcard, as a required value. *)
Theorem white_grants_by_allow (sys : directories) (mode : string)
    (req_resources : list string) (statements : Dict.t string)
    (final final' : Dict.t container) :
  mode ≠ "black" →
  _permissions_processing sys mode req_resources statements final
  = Ok final' →
  ∀ p x,
    p ≠ "*:*" → x ∈ permitted final' p →
    x ∈ permitted final p
    ∨ ∃ r name attribute value,
        (r, "allow") ∈ statements
        ∧ split colon r = [name; attribute; value]
        ∧ identifier_of name attribute = p
        ∧ (x ∈ values (expansion sys name attribute value)
           ∨ (value = "*"
              ∧ ∃ required,
                  required_values req_resources !! p = Some required
                  ∧ x ∈ required)).
Proof.
  intros Hw Hrun. unfold _permissions_processing in Hrun.
  destruct (String.eqb_spec mode "black"); [done|].
  rewrite andb_false_r in Hrun.
  apply bind_ok in Hrun as ([f1 bn1] & Hloop & [= <-]).
  set (req := required_values req_resources) in *.
  set (P := fun s : Dict.t container * gset string =>
              ∀ p x,
                p ≠ "*:*" → x ∈ permitted s.1 p →
                x ∈ permitted final p
                ∨ ∃ r name attribute value,
                    (r, "allow") ∈ statements
                    ∧ split colon r = [name; attribute; value]
                    ∧ identifier_of name attribute = p
                    ∧ (x ∈ values (expansion sys name attribute value)
                       ∨ (value = "*"
                          ∧ ∃ required, req !! p = Some required
                                        ∧ x ∈ required))).
  assert (P (f1, bn1)) as Hend; [|exact Hend].
  refine (for_each_invariant P _ _ _ _ _ _ Hloop);
    [|intros p x _ Hx; by left].
  intros [f bn] [r eff] [f' bn'] Hin Hinv Hstep p x Hp Hx.
  apply apply_statement_inv in Hstep
    as (name & a & v & entry & Hs & Hentry & -> & _).
  simpl in *. unfold permitted in Hx. rewrite store_prepared_get in Hx.
  destruct (String.eqb_spec (identifier_of name a) p) as [Hid|Hne];
    [|by apply Hinv].
  destruct entry as [c|]; [|set_solver].
  rewrite white_prepared_entry in Hentry by done. rewrite Hid in Hentry.
  destruct (entry_step_origin req p v eff _ _ c Hp Hentry x Hx)
    as [Hcur|[-> Hallow]].
  - apply (Hinv p x Hp). unfold permitted. simpl.
    destruct (Dict.get f p); [done|]. simpl in Hcur. set_solver.
  - right. by exists r, name, a, v.
Qed.

(** X4 on a user who is allowed one agent and denied another: the agent
    that is permitted is the one of the statement that allows. *)
Lemma white_grants_by_allow_witness :
  ∃ r name attribute value,
    (r, "allow") ∈ [("agent:id:001", "allow"); ("agent:id:002", "deny")]
    ∧ split colon r = [name; attribute; value]
    ∧ identifier_of name attribute = "agent:id"
    ∧ ("001" ∈ values (expansion sys0 name attribute value)
       ∨ (value = "*"
          ∧ ∃ required,
              required_values ["agent:id:*"] !! "agent:id" = Some required
              ∧ "001" ∈ required)).
Proof.
  destruct (white_grants_by_allow sys0 "white" ["agent:id:*"]
              [("agent:id:001", "allow"); ("agent:id:002", "deny")]
              Dict.empty [("agent:id", PySet {["001"]})])
    with (p := "agent:id") (x := "001") as [Hbefore|Hallow].
  - discriminate.
  - reflexivity.
  - discriminate.
  - unfold permitted. simpl. set_solver.
  - unfold permitted in Hbefore. simpl in Hbefore. set_solver.
  - exact Hallow.
Defined.

(** ** Statements on what is not required *)

Lemma dict_no_entry {V} (d : Dict.t V) :
  (∀ p, Dict.get d p = None) → d = [].
Proof.
  destruct d as [|[k v] d]; [done|]. intros H. specialize (H k).
  simpl in H. by rewrite String.eqb_refl in H.
Qed.

(** X5. Statements that are all filed under identifiers that are not
    required grant nothing, in white mode and in black mode: the final
    permissions of the action are empty. In black mode one such statement
    is enough to lose what the user has with no statement at all. *)
Theorem unrelated_statements_grant_nothing (sys : directories)
    (mode : string) (req_resources : list string)
    (statements : Dict.t string) :
  statements ≠ [] →
  (∀ statement p,
     statement ∈ statements →
     is_Some (required_values req_resources !! p) →
     ¬ files_under p statement) →
  (∀ final,
     _permissions_processing sys mode req_resources statements Dict.empty
     = Ok final →
     final = [])
  ∧ (Forall (fun statement => plain statement.1) statements →
     _permissions_processing sys mode req_resources statements Dict.empty
     = Ok []).
Proof.
  intros Hne Hother.
  assert (∀ final,
            _permissions_processing sys mode req_resources statements
              Dict.empty = Ok final → final = []) as Hempty.
  { intros final Hrun. unfold _permissions_processing in Hrun.
    set (req := required_values req_resources) in *.
    assert (Nat.eqb (List.length (Dict.keys statements)) 0 = false) as Hlen.
    { by destruct statements. }
    rewrite Hlen in Hrun. simpl in Hrun. apply bind_ok in Hrun as ([f1 bn1] & Hloop & Hend).
    assert (∀ p, is_Some (req !! p) → Dict.get f1 p = None) as Hreq.
    { intros p Hp.
      apply (statements_other sys mode req statements (Dict.empty, ∅)
               (f1, bn1) p); [|done].
      intros statement Hin. by apply Hother. }
    apply dict_no_entry. intros p.
    destruct (String.eqb_spec mode "black") as [Hb|Hw].
    - rewrite (black_mode_sanitize_get req _ _ p Hend). unfold sanitized.
      destruct (Dict.get f1 p) as [c|] eqn:Hc; [|done].
      destruct (req !! p) as [required|] eqn:Hr; [|done].
      rewrite Hreq in Hc by (by eexists). done.
    - injection Hend as <-.
      destruct (Dict.get f1 p) as [c|] eqn:Hc; [|done].
      assert (keys_required req f1) as Hkeys.
      { apply (for_each_invariant (fun s => keys_required req s.1) _ _ _ _)
          in Hloop; [done| |apply keys_required_empty].
        intros s x s' _. by apply white_keys_required. }
      rewrite Hreq in Hc; [done|]. apply Hkeys. by rewrite Hc. }
  split; [exact Hempty|].
  intros Hplain.
  destruct (permissions_processing_ok sys mode req_resources statements
              Dict.empty) as (f & Hrun & _); [done|done|done|].
  by rewrite Hrun, (Hempty f Hrun).
Qed.

(** X5 in black mode: all the agents are required, and the one statement
    of the user is about a group. *)
Lemma unrelated_statements_grant_nothing_witness :
  _permissions_processing sys0 "black" ["agent:id:*"]
    [("group:id:groupA", "deny")] Dict.empty
  = Ok [].
Proof.
  apply (unrelated_statements_grant_nothing sys0 "black" ["agent:id:*"]
           [("group:id:groupA", "deny")]).
  - done.
  - intros statement p ->%list_elem_of_singleton Hp
           (n & a & v & Hs & Hid).
    injection Hs as <- <- <-. subst p. vm_compute in Hp.
    by destruct Hp.
  - repeat constructor. exists "group", "id", "groupA". by split_and!.
Defined.

(** ** The last statement of an identifier *)

Lemma entry_step_allow_value (req : gmap string (gset string))
    (identifier value : string) (current : container)
    (required : gset string) (entry : option container) :
  req !! identifier = Some required →
  ("*" ∈ required) ∨ (value ∈ required) →
  entry_step req identifier value "allow" (PySet {[value]}) current
  = Ok entry →
  ∃ c, entry = Some c ∧ value ∈ values c.
Proof.
  intros Hreq Hvalue. unfold entry_step, _use_expanded_resource.
  rewrite Hreq. intros H.
  apply bind_ok in H as (c2 & H2 & H).
  apply bind_ok in H as (c3 & H3 & [= <-]).
  apply bind_ok in H3 as (e & He & H3).
  exists c3. split; [done|].
  rewrite String.eqb_refl in H3. unfold update in H3.
  apply bind_ok in H3 as (bound & Hb & [= <-]).
  destruct c2 as [s2|]; [|done]. injection Hb as <-. simpl.
  case_bool_decide as D; simpl in He; injection He as <-; simpl; set_solver.
Qed.

Lemma entry_step_deny_value (req : gmap string (gset string))
    (identifier value effect : string) (current : container)
    (required : gset string) (entry : option container) :
  effect ≠ "allow" → value ≠ "*" →
  req !! identifier = Some required →
  entry_step req identifier value effect (PySet {[value]}) current
  = Ok entry →
  ∃ c, entry = Some c
       ∧ (value ∈ values c →
          ("*" ∉ required) ∧ (value ∉ required)
          ∧ (value ∈ values current)).
Proof.
  intros Heff Hvalue Hreq. unfold entry_step, _use_expanded_resource.
  rewrite Hreq.
  apply String.eqb_neq in Heff, Hvalue. rewrite Heff, Hvalue.
  rewrite andb_false_r, orb_false_r. cbn [andb]. intros H.
  apply bind_ok in H as (c2 & H2 & H).
  apply bind_ok in H as (c3 & H3 & [= <-]).
  apply bind_ok in H3 as (e & He & H3).
  exists c3. split; [done|].
  destruct c2 as [s2|]; [|done]. injection H3 as <-. simpl.
  assert (value ∈ s2 → value ∈ values current ∨ value ∈ required ∖ {[value]})
    as Hcur.
  { destruct (String.eqb identifier "*:*").
    - apply bind_ok in H2 as (bound & Hb & H2).
      apply bind_ok in H2 as (missing & Hm & [= E2]).
      destruct current as [s|]; [|done].
      injection Hb as <-. injection Hm as <-. injection E2 as <-.
      simpl. set_solver.
    - injection H2 as E2. rewrite E2. by left. }
  case_bool_decide as D; simpl in He; injection He as <-; simpl;
    set_solver.
Qed.

(** X6. The last statement filed under an identifier decides about its
    value, whatever comes before it, in either mode: a value that a
    statement allows is permitted in the end when it is required or when
    exactly the wildcard is required; a value that a statement does not
    allow is not permitted in the end. The statement is on a value, not on
    a wildcard, and not on a group of agents. *)
Theorem last_statement_decides (sys : directories) (mode : string)
    (req_resources : list string) (before after : Dict.t string)
    (resource name attribute value effect : string)
    (final : Dict.t container) :
  split colon resource = [name; attribute; value] →
  value ≠ "*" →
  name +:+ ":" +:+ attribute ≠ "agent:group" →
  let identifier := name +:+ ":" +:+ attribute in
  (∀ statement, statement ∈ after → ¬ files_under identifier statement) →
  _permissions_processing sys mode req_resources
    (before ++ (resource, effect) :: after) Dict.empty
  = Ok final →
  (effect = "allow" →
   ∀ required,
     required_values req_resources !! identifier = Some required →
     value ∈ required ∨ required = {["*"]} →
     value ∈ permitted final identifier)
  ∧ (effect ≠ "allow" → value ∉ permitted final identifier).
Proof.
  intros Hsplit Hvalue Hgroup identifier Hafter Hrun.
  unfold _permissions_processing in Hrun.
  set (req := required_values req_resources) in *.
  assert (Nat.eqb (List.length
                     (Dict.keys (before ++ (resource, effect) :: after))) 0
          = false) as Hlen.
  { unfold Dict.keys. rewrite length_map, length_app. simpl.
    apply Nat.eqb_neq. lia. }
  rewrite Hlen in Hrun. simpl in Hrun.
  apply bind_ok in Hrun as ([f3 bn3] & Hloop & Hend).
  rewrite for_each_app in Hloop.
  apply bind_ok in Hloop as ([f1 bn1] & Hbefore & Hloop).
  simpl in Hloop. apply bind_ok in Hloop as ([f2 bn2] & Hstep & Hafter').
  apply apply_statement_inv in Hstep
    as (n & a & v & entry & Hs & Hentry & Hf2 & _).
  rewrite Hsplit in Hs. injection Hs as <- <- <-.
  assert (identifier_of name attribute = identifier) as Hid.
  { unfold identifier_of, identifier.
    by destruct (String.eqb_spec (name +:+ ":" +:+ attribute) "agent:group"). }
  assert (expansion sys name attribute value = PySet {[value]}) as Hexp.
  { unfold expansion.
    destruct (String.eqb_spec (name +:+ ":" +:+ attribute) "agent:group");
      [done|].
    by destruct (String.eqb_spec value "*"). }
  rewrite Hid, Hexp in Hentry. rewrite Hid in Hf2.
  assert (Dict.get f3 identifier = entry) as Hget3.
  { pose proof (statements_other sys mode req after (f2, bn2) (f3, bn3)
                  identifier Hafter Hafter') as Hother.
    simpl in Hother.
    rewrite Hother, Hf2, store_prepared_get. by rewrite String.eqb_refl. }
  split.
  - intros -> required Hreq Hin.
    assert ("*" ∈ required ∨ value ∈ required) as Hin'.
    { destruct Hin as [Hv|Hs]; [by right|left; set_solver]. }
    destruct (entry_step_allow_value req identifier value _ required entry
                Hreq Hin' Hentry) as (c & -> & Hc).
    unfold permitted. destruct (String.eqb mode "black").
    + rewrite (black_mode_sanitize_get req _ _ identifier Hend), Hget3.
      unfold sanitized. rewrite Hreq. case_bool_decide as D; [|done].
      simpl. destruct Hin as [?|?]; [set_solver|done].
    + injection Hend as <-. by rewrite Hget3.
  - intros Heff Hin. unfold permitted in Hin.
    destruct (String.eqb_spec mode "black") as [Hb|Hw].
    + rewrite (black_mode_sanitize_get req _ _ identifier Hend), Hget3 in Hin.
      pose proof (sanitized_values req identifier entry) as Hsan.
      destruct (sanitized req identifier entry) as [c'|]; [|set_solver].
      destruct Hsan as (c & required & -> & Hreq & Hsub & Hne & Heq).
      destruct (entry_step_deny_value req identifier value effect _ required
                  (Some c) Heff Hvalue Hreq Hentry)
        as (c0 & [= <-] & Hc).
      destruct (decide (required = {["*"]})) as [->|Hd].
      * rewrite (Heq eq_refl) in Hin. destruct (Hc Hin) as (Hstar & _).
        set_solver.
      * rewrite (Hne Hd) in Hin. apply elem_of_intersection in Hin as [Hv Hr].
        destruct (Hc Hv) as (_ & Hnot & _). done.
    + injection Hend as <-. rewrite Hget3 in Hin.
      destruct entry as [c|]; [|set_solver].
      assert (within_required req_resources f1) as Hwithin.
      { apply (for_each_invariant
                 (fun s => within_required req_resources s.1) _ _ _ _)
          in Hbefore; [done| |apply within_required_empty].
        intros s x s' _. by apply white_within. }
      rewrite white_prepared_entry in Hentry by done.
      destruct (req !! identifier) as [required|] eqn:Hreq.
      * destruct (entry_step_deny_value req identifier value effect _ required
                    (Some c) Heff Hvalue Hreq Hentry)
          as (c0 & [= <-] & Hc).
        destruct (Hc Hin) as (Hstar & Hnot & Hcur).
        destruct (Dict.get f1 identifier) as [c1|] eqn:E1;
          [|simpl in Hcur; set_solver].
        destruct (Hwithin _ _ E1) as (R & HR & HR').
        fold req in HR. rewrite Hreq in HR. injection HR as <-.
        simpl in Hcur. destruct HR'; [done|set_solver].
      * destruct (Dict.get f1 identifier) as [c1|] eqn:E1.
        -- destruct (Hwithin _ _ E1) as (R & HR & _). fold req in HR.
           congruence.
        -- simpl in Hentry.
           by apply entry_step_not_required in Hentry.
Qed.

(** X6 on the statement [agent:id:001] after a wildcard of the other
    effect. *)
Lemma last_statement_decides_witness :
  ∃ granted denied,
    _permissions_processing sys0 "white" ["agent:id:001"; "agent:id:002"]
      ([("agent:id:*", "deny")] ++ ("agent:id:001", "allow") :: [])
      Dict.empty = Ok granted
    ∧ "001" ∈ permitted granted "agent:id"
    ∧ _permissions_processing sys0 "black" ["agent:id:001"; "agent:id:002"]
        ([("agent:id:*", "allow")] ++ ("agent:id:001", "deny") :: [])
        Dict.empty = Ok denied
    ∧ "001" ∉ permitted denied "agent:id".
Proof.
  exists [("agent:id", PySet {["001"]})], [("agent:id", PySet {["002"]})].
  split; [reflexivity|]. split.
  - destruct (last_statement_decides sys0 "white"
                ["agent:id:001"; "agent:id:002"] [("agent:id:*", "deny")] []
                "agent:id:001" "agent" "id" "001" "allow"
                [("agent:id", PySet {["001"]})]) as [Hallow _];
      [reflexivity|done|done| |reflexivity|].
    + intros statement Hin. by apply elem_of_nil in Hin.
    + apply (Hallow eq_refl {["001"; "002"]}); [reflexivity|].
      left. set_solver.
  - split; [reflexivity|].
    destruct (last_statement_decides sys0 "black"
                ["agent:id:001"; "agent:id:002"] [("agent:id:*", "allow")] []
                "agent:id:001" "agent" "id" "001" "deny"
                [("agent:id", PySet {["002"]})]) as [_ Hdeny];
      [reflexivity|done|done| |reflexivity|].
    + intros statement Hin. by apply elem_of_nil in Hin.
    + by apply Hdeny.
Defined.

(** ** Roles and policies, which the system enumerates as lists *)

Lemma listed_universe (sys : directories) (identifier : string) :
  listed identifier → ∃ l, universe sys identifier = PyList l.
Proof. intros [->| ->]; by eexists. Qed.

Lemma listed_identifier (name attribute : string) :
  listed (name +:+ ":" +:+ attribute) →
  identifier_of name attribute = name +:+ ":" +:+ attribute.
Proof.
  intros Hl. unfold identifier_of.
  destruct (String.eqb_spec (name +:+ ":" +:+ attribute) "agent:group")
    as [E|]; [|done].
  rewrite E in Hl. by destruct Hl.
Qed.

Lemma listed_wildcard (sys : directories) (name attribute : string) :
  listed (name +:+ ":" +:+ attribute) →
  ∃ l, expansion sys name attribute "*" = PyList l.
Proof.
  intros Hl. unfold expansion.
  destruct (String.eqb_spec (name +:+ ":" +:+ attribute) "agent:group")
    as [E|]; [rewrite E in Hl; by destruct Hl|].
  by apply listed_universe.
Qed.

Lemma plain_not_listed (identifier : string) (statement : string * string) :
  listed identifier → plain statement.1 → ¬ files_under identifier statement.
Proof.
  intros Hl (n & a & v & Hs & Hr & Hp) (n' & a' & v' & Hs' & Hid).
  rewrite Hs in Hs'. injection Hs' as <- <- <-.
  unfold identifier_of in Hid.
  destruct (String.eqb_spec (n +:+ ":" +:+ a) "agent:group").
  - subst identifier. by destruct Hl.
  - subst identifier. by destruct Hl.
Qed.

(** An entry that is a list survives a statement on a required identifier
    only when the statement denies the wildcard, which empties it. *)
Lemma entry_step_list (req : gmap string (gset string))
    (identifier value effect : string) (expanded : container)
    (l : list string) (required : gset string) :
  req !! identifier = Some required →
  (value = "*" → ∃ l', expanded = PyList l') →
  entry_step req identifier value effect expanded (PyList l)
  = (if String.eqb effect "deny" && String.eqb value "*"
        && bool_decide ("*" ∈ required)
        && negb (String.eqb identifier "*:*")
     then Ok (Some (PyList []))
     else Raise AttributeError).
Proof.
  intros Hreq Hexp. unfold entry_step, _use_expanded_resource, update.
  rewrite Hreq.
  destruct (String.eqb_spec identifier "*:*") as [Hi|Hi]; simpl;
    [by rewrite !andb_false_r|].
  rewrite !andb_true_r.
  destruct (String.eqb_spec effect "allow") as [->|Ha]; simpl.
  - destruct (bool_decide ("*" ∉ required) && String.eqb value "*"); simpl;
      [done|].
    case_bool_decide; simpl; [|done]. by destruct expanded.
  - destruct (String.eqb_spec value "*") as [->|Hv]; simpl.
    + destruct (Hexp eq_refl) as [l' ->].
      destruct (String.eqb effect "deny"); simpl.
      * case_bool_decide as D; simpl.
        -- by rewrite (bool_decide_false _ D).
        -- by rewrite (bool_decide_true _ D).
      * by case_bool_decide.
    + rewrite !andb_false_r. simpl.
      case_bool_decide; simpl; [|done]. by destruct expanded.
Qed.

(** The identifiers met so far in black mode are those of the statements
    read. *)
Lemma black_negation_filed (sys : directories)
    (req : gmap string (gset string)) (statements : Dict.t string)
    (state state' : Dict.t container * gset string) (p : string) :
  (∀ statement, statement ∈ statements → ¬ files_under p statement) →
  for_each (apply_statement sys "black" req) statements state = Ok state' →
  p ∉ state.2 → p ∉ state'.2.
Proof.
  intros Hother Hloop Hp.
  apply (for_each_invariant (fun s => p ∉ s.2) _ _ _ _) in Hloop;
    [done| |done].
  intros [f bn] [r eff] [f' bn'] Hin Hbn Hstep.
  apply apply_statement_inv in Hstep as (n & a & v & entry & Hs & _ & _ & ->).
  simpl in *. apply not_elem_of_union. split; [done|].
  intros ->%elem_of_singleton. apply (Hother _ Hin). by exists n, a, v.
Qed.



(** X8. In black mode the first statement about a role or a policy makes
    the resolver raise [AttributeError] when roles or policies are
    required, unless the statement denies the wildcard and the wildcard is
    required: the entry is the list of the system, which has none of the
    methods of a set but [clear]. The statements read before are about
    other resources. *)
Theorem black_mode_roles_raise (sys : directories)
    (req_resources : list string) (before after : Dict.t string)
    (resource name attribute value effect : string)
    (required : gset string) (final : Dict.t container) :
  all_sets final →
  Forall (fun statement => plain statement.1) before →
  split colon resource = [name; attribute; value] →
  listed (name +:+ ":" +:+ attribute) →
  required_values req_resources !! (name +:+ ":" +:+ attribute)
  = Some required →
  ¬ (effect = "deny" ∧ value = "*" ∧ "*" ∈ required) →
  _permissions_processing sys "black" req_resources
    (before ++ (resource, effect) :: after) final
  = Raise AttributeError.
Proof.
  intros Hsets Hplain Hsplit Hl Hreq Hnot. unfold _permissions_processing.
  set (req := required_values req_resources) in *.
  assert (Nat.eqb (List.length
                     (Dict.keys (before ++ (resource, effect) :: after))) 0
          = false) as Hlen.
  { unfold Dict.keys. rewrite length_map, length_app. simpl.
    apply Nat.eqb_neq. lia. }
  rewrite Hlen. simpl. rewrite for_each_app.
  destruct (statements_ok sys "black" req before (final, ∅) Hplain Hsets)
    as ([f1 bn1] & Hbefore & _).
  rewrite Hbefore.
  assert (name +:+ ":" +:+ attribute ∉ bn1) as Hbn.
  { apply (black_negation_filed sys req before (final, ∅) (f1, bn1));
      [|done|set_solver].
    intros statement Hin. apply plain_not_listed; [done|].
    by apply (proj1 (Forall_forall _ _) Hplain). }
  cbn -[apply_statement].
  rewrite (apply_statement_entry sys "black" req _ _ _ _ _ _ _ Hsplit).
  rewrite (listed_identifier _ _ Hl).
  destruct (listed_universe sys _ Hl) as [l Hu].
  assert (prepared_entry sys "black" f1 bn1 (name +:+ ":" +:+ attribute)
          = PyList l) as ->.
  { unfold prepared_entry. simpl. by rewrite bool_decide_true. }
  rewrite (entry_step_list req _ _ _ _ _ required Hreq).
  - destruct (String.eqb_spec effect "deny") as [He|He]; simpl; [|done].
    destruct (String.eqb_spec value "*") as [Hv|Hv]; simpl; [|done].
    case_bool_decide as D; simpl; [|done]. by destruct Hnot.
  - intros ->. by apply listed_wildcard.
Qed.

(** X8 on a user who is allowed one role. *)
Lemma black_mode_roles_raise_witness :
  _permissions_processing sys0 "black" ["role:id:1"]
    ([("agent:id:001", "allow")] ++ ("role:id:1", "allow") :: []) Dict.empty
  = Raise AttributeError.
Proof.
  apply (black_mode_roles_raise sys0 ["role:id:1"] [("agent:id:001", "allow")]
           [] "role:id:1" "role" "id" "1" "allow" {["1"]}).
  - intros p c H. discriminate H.
  - repeat constructor. exists "agent", "id", "001". by split_and!.
  - reflexivity.
  - by left.
  - reflexivity.
  - intros (H & _). discriminate H.
Defined.

(** X9. In white mode a statement on every role, or on every policy,
    makes the resolver raise when roles or policies are required by their
    ids: [TypeError] when it allows, for the difference of a set and a
    list, and [AttributeError] otherwise, for the intersection of a
    list. The statements read before are about other resources. *)
Theorem white_mode_all_roles_raise (sys : directories) (mode : string)
    (req_resources : list string) (before after : Dict.t string)
    (resource name attribute effect : string)
    (required : gset string) (final : Dict.t container) :
  mode ≠ "black" →
  all_sets final →
  Forall (fun statement => plain statement.1) before →
  split colon resource = [name; attribute; "*"] →
  listed (name +:+ ":" +:+ attribute) →
  required_values req_resources !! (name +:+ ":" +:+ attribute)
  = Some required →
  "*" ∉ required →
  _permissions_processing sys mode req_resources
    (before ++ (resource, effect) :: after) final
  = Raise (if String.eqb effect "allow" then TypeError else AttributeError).
Proof.
  intros Hw Hsets Hplain Hsplit Hl Hreq Hstar. unfold _permissions_processing.
  set (req := required_values req_resources) in *.
  apply String.eqb_neq in Hw. rewrite Hw, andb_false_r.
  rewrite for_each_app.
  destruct (statements_ok sys mode req before (final, ∅) Hplain Hsets)
    as ([f1 bn1] & Hbefore & Hsets1).
  rewrite Hbefore. cbn -[apply_statement].
  rewrite (apply_statement_entry sys mode req _ _ _ _ _ _ _ Hsplit).
  rewrite (listed_identifier _ _ Hl).
  destruct (listed_wildcard sys _ _ Hl) as [l ->].
  assert (∃ s, prepared_entry sys mode f1 bn1 (name +:+ ":" +:+ attribute)
               = PySet s) as [s ->].
  { unfold prepared_entry. rewrite Hw. simpl.
    destruct (Dict.get f1 _) as [c|] eqn:E; [|by eexists].
    by apply (Hsets1 _ _ E). }
  unfold entry_step, _use_expanded_resource. rewrite Hreq.
  assert (String.eqb (name +:+ ":" +:+ attribute) "*:*" = false) as ->.
  { by destruct Hl as [-> | ->]. }
  rewrite (bool_decide_true ("*" ∉ required)) by done.
  by destruct (String.eqb effect "allow").
Qed.

(** X9 on a user who is allowed every role, and asks for one. *)
Lemma white_mode_all_roles_raise_witness :
  _permissions_processing sys0 "white" ["role:id:1"]
    ([] ++ ("role:id:*", "allow") :: []) Dict.empty
  = Raise TypeError.
Proof.
  apply (white_mode_all_roles_raise sys0 "white" ["role:id:1"] [] []
           "role:id:*" "role" "id" "allow" {["1"]}).
  - done.
  - intros p c H. discriminate H.
  - constructor.
  - reflexivity.
  - by left.
  - reflexivity.
  - set_solver.
Defined.

(** ** Sanitizing twice *)

Lemma for_each_fixed {A S} (body : S → A → result S) (l : list A) (s : S) :
  (∀ x, x ∈ l → body s x = Ok s) → for_each body l s = Ok s.
Proof.
  induction l as [|x l IH]; intros Hall; simpl; [done|].
  rewrite (Hall x) by (by left). simpl. apply IH.
  intros y Hy. apply Hall. by right.
Qed.

(** X10. What [_black_mode_sanitize] returns holds entries of required
    identifiers only, and is left as it is by sanitizing it again. *)
Theorem black_mode_sanitize_idempotent (req : gmap string (gset string))
    (final final' : Dict.t container) :
  _black_mode_sanitize final req = Ok final' →
  keys_required req final'
  ∧ _black_mode_sanitize final' req = Ok final'.
Proof.
  intros Hrun.
  assert (∀ k c', Dict.get final' k = Some c' →
            ∃ c required,
              Dict.get final k = Some c ∧ req !! k = Some required
              ∧ c' = if bool_decide (required ≠ {["*"]})
                     then PySet (values c ∩ required) else c) as Hentry.
  { intros k c'. rewrite (black_mode_sanitize_get req _ _ k Hrun).
    unfold sanitized. destruct (Dict.get final k) as [c|]; [|done].
    destruct (req !! k) as [required|]; [|done].
    intros H. exists c, required. split_and!; [done..|].
    destruct (bool_decide _); by injection H as <-. }
  split.
  - intros k [c' Hk]. destruct (Hentry k c' Hk) as (c & required & _ & -> & _).
    by eexists.
  - unfold _black_mode_sanitize. apply for_each_fixed. intros k Hk.
    apply dict_get_keys in Hk as [c' Hk].
    destruct (Hentry k c' Hk) as (c & required & _ & Hreq & Hc').
    unfold sanitize_key, Dict.item. rewrite Hreq.
    case_bool_decide as D; [|done].
    rewrite Hk. simpl. subst c'. simpl.
    replace (values c ∩ required ∩ required) with (values c ∩ required)
      by set_solver.
    by rewrite dict_set_same.
Qed.

(** X10 on the example of the code: the agent 001 is required, and the
    user may read every agent. *)
Lemma black_mode_sanitize_idempotent_witness :
  _black_mode_sanitize [("agent:id", PySet {["001"]})] {["agent:id" := {["001"]}]}
  = Ok [("agent:id", PySet {["001"]})].
Proof.
  apply (black_mode_sanitize_idempotent {["agent:id" := {["001"]}]}
           [("agent:id", PySet {["001"; "002"; "003"]});
            ("group:id", PySet {["groupA"]})]).
  reflexivity.
Defined.

(** ** The actions of a call *)

Lemma dict_set_fresh {V} (d : Dict.t V) (k : string) (v : V) :
  k ∉ Dict.keys d → Dict.set d k v = d ++ [(k, v)].
Proof.
  induction d as [|[k0 v0] d IH]; simpl; [done|].
  intros Hk. apply not_elem_of_cons in Hk as [Hne Hk].
  destruct (String.eqb_spec k0 k) as [E|_]; [by subst|].
  by rewrite IH.
Qed.

Lemma required_permissions_nodup (actions res_list : list string) :
  NoDup actions →
  required_permissions actions res_list
  = map (fun action => (action, res_list)) actions.
Proof.
  unfold required_permissions.
  assert (∀ l (d : Dict.t (list string)),
            NoDup (Dict.keys d ++ l) →
            fold_left (fun req a => Dict.set req a res_list) l d
            = d ++ map (fun a => (a, res_list)) l) as Hgen.
  { induction l as [|a l IH]; intros d Hd; simpl; [by rewrite app_nil_r|].
    apply NoDup_app in Hd as (Hd & Hdisj & Hl).
    apply NoDup_cons in Hl as [Ha Hl].
    rewrite IH.
    - rewrite dict_set_fresh; [by rewrite <- app_assoc|].
      intros Hin. apply (Hdisj a Hin). by left.
    - rewrite dict_keys_set.
      destruct (Dict.mem d a) eqn:E.
      + apply dict_mem_get, dict_get_keys in E.
        exfalso. apply (Hdisj a E). by left.
      + rewrite <- app_assoc. simpl. apply NoDup_app. split_and!; [done| |].
        * intros x Hx Hin. apply (Hdisj x Hx). done.
        * by apply NoDup_cons. }
  intros Hnodup. by rewrite Hgen.
Qed.

(** In white mode the statements leave alone the set of the identifiers
    met, which only black mode keeps. *)
Lemma white_negation (sys : directories) (mode : string)
    (req : gmap string (gset string)) (statements : Dict.t string)
    (state state' : Dict.t container * gset string) :
  mode ≠ "black" →
  for_each (apply_statement sys mode req) statements state = Ok state' →
  state'.2 = state.2.
Proof.
  intros Hw Hloop.
  apply (for_each_invariant (fun s => s.2 = state.2) _ _ _ _) in Hloop;
    [done| |done].
  intros [f bn] [r eff] [f' bn'] _ Hbn Hstep.
  apply apply_statement_inv in Hstep as (n & a & v & entry & _ & _ & _ & ->).
  by destruct (String.eqb_spec mode "black").
Qed.

Lemma white_processing (sys : directories) (mode : string)
    (req_resources : list string) (statements : Dict.t string)
    (final : Dict.t container) :
  mode ≠ "black" →
  _permissions_processing sys mode req_resources statements final
  = (state ← for_each (apply_statement sys mode
                         (required_values req_resources))
               statements (final, ∅);
     Ok state.1).
Proof.
  intros Hw. unfold _permissions_processing.
  apply String.eqb_neq in Hw. rewrite Hw, andb_false_r.
  by destruct (for_each _ _ _) as [[f bn]|e].
Qed.

(** X11. In white mode the actions of a call are resolved as if their
    statements were the statements of one action, in the order of the
    actions: what one action allows is permitted to the call unless a
    later action denies it. *)
Theorem white_actions_compose (sys : directories) (mode : string)
    (actions req_resources : list string)
    (statements : gmap string (Dict.t string)) :
  mode ≠ "black" → NoDup actions →
  _match_permissions sys mode (required_permissions actions req_resources)
    (PRbac statements)
  = _permissions_processing sys mode req_resources
      (statements_of_all statements actions) Dict.empty.
Proof.
  intros Hw Hnodup. rewrite required_permissions_nodup by done.
  unfold _match_permissions. clear Hnodup.
  generalize (Dict.empty : Dict.t container).
  induction actions as [|a l IH]; intros final.
  - rewrite white_processing by done. done.
  - rewrite white_processing by done.
    unfold statements_of_all. cbn [map concat for_each].
    rewrite for_each_app. cbn [statements_of mbind result_bind].
    fold (statements_of_all statements l).
    assert (match statements !! a with
            | Some l0 =>
                _permissions_processing sys mode req_resources l0 final
            | None =>
                _permissions_processing sys mode req_resources Dict.empty
                  final
            end
            = _permissions_processing sys mode req_resources
                (statements_for statements a) final) as ->.
    { unfold statements_for. by destruct (statements !! a). }
    rewrite white_processing by done.
    destruct (for_each (apply_statement sys mode _)
                (statements_for statements a) (final, ∅))
      as [[f1 bn1]|e] eqn:E; [|done].
    apply white_negation in E as Hbn; [|done]. simpl in Hbn. subst bn1.
    cbn [mbind result_bind fst]. rewrite IH.
    by rewrite white_processing.
Qed.

(** X11 on a call of two actions, of which the user is allowed the
    first. *)
Lemma white_actions_compose_witness :
  _match_permissions sys0 "white"
    (required_permissions ["agent:read"; "agent:delete"] ["agent:id:001"])
    (PRbac {["agent:read" := [("agent:id:001", "allow")]]})
  = Ok [("agent:id", PySet {["001"]})].
Proof.
  rewrite (white_actions_compose sys0 "white" ["agent:read"; "agent:delete"]
             ["agent:id:001"]
             {["agent:read" := [("agent:id:001", "allow")]]}).
  - reflexivity.
  - done.
  - apply (bool_decide_unpack _). by vm_compute.
Defined.

(** X12. Only the statements of the actions of the call count: users
    whose statements are the same for these actions are resolved alike,
    and an action without entry counts as an action without statement. *)
Theorem other_actions_ignored (sys : directories) (mode : string)
    (actions req_resources : list string)
    (statements statements' : gmap string (Dict.t string)) :
  (∀ action, action ∈ actions →
     statements_for statements action = statements_for statements' action) →
  _match_permissions sys mode (required_permissions actions req_resources)
    (PRbac statements)
  = _match_permissions sys mode (required_permissions actions req_resources)
      (PRbac statements').
Proof.
  intros Hsame. unfold _match_permissions.
  assert (∀ x, x ∈ required_permissions actions req_resources →
               x.1 ∈ actions) as Hkeys.
  { intros [a rs] Hin. by apply required_permissions_elem in Hin as [_ ?]. }
  revert Hkeys. generalize (required_permissions actions req_resources).
  generalize (Dict.empty : Dict.t container).
  intros final required. revert final.
  induction required as [|[a rs] l IH]; intros final Hkeys; [done|].
  cbn [for_each statements_of mbind result_bind].
  assert (∀ st : gmap string (Dict.t string),
            match st !! a with
            | Some l0 => _permissions_processing sys mode rs l0 final
            | None => _permissions_processing sys mode rs Dict.empty final
            end
            = _permissions_processing sys mode rs (statements_for st a) final)
    as Hfor.
  { intros st. unfold statements_for. by destruct (st !! a). }
  rewrite !Hfor, (Hsame a) by (apply (Hkeys (a, rs)); by left).
  clear Hfor.
  destruct (_permissions_processing sys mode rs
              (statements_for statements' a) final) as [f1|e]; [|done].
  apply IH. intros x Hx. apply Hkeys. by right.
Qed.

(** X12 on a user who has statements for another action as well. *)
Lemma other_actions_ignored_witness :
  _match_permissions sys0 "black"
    (required_permissions ["agent:read"] ["agent:id:001"])
    (PRbac {["agent:delete" := [("agent:id:*", "deny")]]})
  = _match_permissions sys0 "black"
      (required_permissions ["agent:read"] ["agent:id:001"])
      (PRbac {["agent:read" := []]}).
Proof.
  apply (other_actions_ignored sys0 "black" ["agent:read"] ["agent:id:001"]
           {["agent:delete" := [("agent:id:*", "deny")]]}
           {["agent:read" := []]}).
  intros action ->%list_elem_of_singleton. reflexivity.
Defined.

(** ** What the parser returns *)

Section Parsing.

Context (str_of_statements : gmap string (Dict.t string) → string).
Context (kwargs : gmap string pyarg).

Local Abbreviation parse := (parse_resource str_of_statements kwargs).

Local Ltac grown := eexists; (split; [|reflexivity]); done.

Lemma parse_resource_spec (state : list string * list string * bool)
    (resource : string) :
  match parse state resource with
  | Ok state' =>
      well_declared kwargs resource
      ∧ state'.1.2 = state.1.2 ++ [target_of resource]
      ∧ ∃ more, more ≠ [] ∧ state'.1.1 = state.1.1 ++ more
  | Raise e =>
      ¬ well_declared kwargs resource
      ∧ ((e = AttributeError ∧ match_template resource = None)
         ∨ (e = WazuhError 4015 (Some (target_of resource))
            ∧ kwargs !! target_of resource = Some (PList [])))
  end.
Proof.
  destruct state as [[rl tp] ad]. unfold parse_resource, target_of.
  destruct (match_template resource) as [m|] eqn:Hm.
  - assert ((∀ name, group3 m = Some name →
                       kwargs !! name ≠ Some (PList [])) →
            well_declared kwargs resource) as Hwell.
    { intros H. by exists m. }
    destruct (group3 m) as [name|] eqn:Hname; simpl.
    + destruct (kwargs !! name) as [params|] eqn:E.
      * destruct params as [l| | | |]; simpl.
        -- destruct l as [|x l]; simpl.
           ++ split; [|by right].
              intros (m' & Hm' & Hno). rewrite Hm in Hm'.
              injection Hm' as <-. by apply (Hno name).
           ++ split_and!; [|done|grown].
              apply Hwell. intros n [= <-]. by rewrite E.
        -- destruct (String.eqb s "*"); simpl;
             (split_and!; [|done|grown]);
             apply Hwell; intros n [= <-]; by rewrite E.
        -- split_and!; [|done|grown].
           apply Hwell. intros n [= <-]. by rewrite E.
        -- split_and!; [|done|grown].
           apply Hwell. intros n [= <-]. by rewrite E.
        -- split_and!; [|done|grown].
           apply Hwell. intros n [= <-]. by rewrite E.
      * split_and!; [|done|grown].
        apply Hwell. intros n [= <-]. by rewrite E.
    + split_and!; [|done|grown]. by apply Hwell.
  - split; [|by left]. intros (m' & Hm' & _). by rewrite Hm in Hm'.
Qed.

Lemma parse_loop_spec (resources : list string)
    (state : list string * list string * bool) :
  match for_each parse resources state with
  | Ok state' =>
      Forall (well_declared kwargs) resources
      ∧ state'.1.2 = state.1.2 ++ map target_of resources
      ∧ (List.length state.1.1 + List.length resources
         ≤ List.length state'.1.1)%nat
  | Raise e =>
      ¬ Forall (well_declared kwargs) resources
      ∧ ((e = AttributeError
          ∧ ∃ r, r ∈ resources ∧ match_template r = None)
         ∨ (∃ name, e = WazuhError 4015 (Some name)
                    ∧ kwargs !! name = Some (PList [])
                    ∧ name ∈ map target_of resources))
  end.
Proof.
  revert state. induction resources as [|r l IH]; intros state.
  - simpl. split_and!; [done|by rewrite app_nil_r|lia].
  - cbn [for_each]. pose proof (parse_resource_spec state r) as Hr.
    destruct (parse state r) as [s1|e]; cbn [mbind result_bind].
    + destruct Hr as (Hwell & Htargets & more & Hmore & Hres).
      specialize (IH s1).
      destruct (for_each parse l s1) as [s2|e].
      * destruct IH as (Hall & Ht & Hlen). split_and!.
        -- by constructor.
        -- rewrite Ht, Htargets, <- app_assoc. done.
        -- rewrite Hres, length_app in Hlen. simpl.
           destruct more; [done|]. simpl in Hlen. lia.
      * destruct IH as (Hnot & Herr). split.
        -- intros [_ Hall]%Forall_cons. by apply Hnot.
        -- destruct Herr as [(-> & r' & Hin & Hm)|(name & -> & Hk & Hin)].
           ++ left. split; [done|]. exists r'. split; [by right|done].
           ++ right. exists name. split_and!; [done..|]. simpl. by right.
    + destruct Hr as (Hnot & Herr). split.
      * intros [Hwell _]%Forall_cons. by apply Hnot.
      * destruct Herr as [(-> & Hm)|(-> & Hk)].
        -- left. split; [done|]. exists r. split; [by left|done].
        -- right. exists (target_of r). split_and!; [done..|]. simpl.
           by left.
Qed.

End Parsing.


(** ** The groups of a declared resource *)

Lemma strip_last_append (c : ascii) (s t : string) :
  strip_last c s = Some t → s = t +:+ String c "".
Proof.
  revert t. induction s as [|a s IH]; intros t; simpl; [done|].
  destruct s as [|b s].
  - destruct (Ascii.eqb_spec a c) as [->|]; [|done]. by intros [= <-].
  - destruct (strip_last c (String b s)) as [t'|]; [|done].
    intros [= <-]. simpl. by rewrite <- (IH t').
Qed.

Lemma braced_append (s inner : string) :
  braced s = Some inner → s = "{" +:+ inner +:+ "}".
Proof.
  destruct s as [|a s]; simpl; [done|].
  destruct (Ascii.eqb_spec a "{") as [->|]; [|done].
  intros H. by rewrite (strip_last_append _ _ _ H).
Qed.

(** X14. The groups of a declared resource that is in the grammar: the
    first and the second make up the resource, but for a newline that may
    end it; the first is a type and an attribute with their colons, so
    that with any parameter without colon it makes a resource of three
    parts, of that type and attribute and with the parameter as value; the
    second has no colon, and is the third between braces when there is a
    third. *)
Theorem template_groups (resource : string) (m : template_match) :
  match_template resource = Some m →
  ∃ name attribute,
    group1 m = name +:+ ":" +:+ attribute +:+ ":"
    ∧ (resource = group1 m +:+ group2 m
       ∨ resource = group1 m +:+ group2 m +:+ String newline "")
    ∧ no_colon (group2 m)
    ∧ (∀ param, no_colon param →
         split colon (group1 m +:+ param) = [name; attribute; param])
    ∧ (∀ inner, group3 m = Some inner →
                group2 m = "{" +:+ inner +:+ "}").
Proof.
  unfold match_template.
  set (text := default resource (strip_last newline resource)).
  assert (resource = text ∨ resource = text +:+ String newline "") as Htext.
  { unfold text. destruct (strip_last newline resource) as [t|] eqn:E;
      [right; by apply strip_last_append|by left]. }
  clearbody text.
  destruct (split colon text) as [|name [|attribute [|value [|? ?]]]] eqn:Hs;
    try done.
  apply split_three_inv in Hs as (Ht & Hn & Ha & Hv).
  destruct (plus is_lower_or_star name && plus is_lower_or_star attribute);
    [|done].
  assert (∀ g3,
            Some {| group1 := name +:+ ":" +:+ attribute +:+ ":";
                    group2 := value; group3 := g3 |} = Some m →
            (∀ inner, g3 = Some inner → value = "{" +:+ inner +:+ "}") →
            ∃ name attribute,
              group1 m = name +:+ ":" +:+ attribute +:+ ":"
              ∧ (resource = group1 m +:+ group2 m
                 ∨ resource = group1 m +:+ group2 m +:+ String newline "")
              ∧ no_colon (group2 m)
              ∧ (∀ param, no_colon param →
                   split colon (group1 m +:+ param)
                   = [name; attribute; param])
              ∧ (∀ inner, group3 m = Some inner →
                          group2 m = "{" +:+ inner +:+ "}")) as Hgroups.
  { intros g3 [= <-] Hg3. exists name, attribute.
    assert (∀ param,
              (name +:+ ":" +:+ attribute +:+ ":") +:+ param
              = name +:+ ":" +:+ attribute +:+ ":" +:+ param) as Hprefix.
    { intros param. by rewrite !append_assoc. }
    cbn [group1 group2 group3]. split_and!; [done| |done| |done].
    - destruct Htext as [->| ->]; [left|right].
      + by rewrite Ht, <- Hprefix.
      + by rewrite Ht, <- Hprefix, append_assoc.
    - intros param Hp.
      rewrite <- (split_three name attribute param Hn Ha Hp).
      f_equal. apply Hprefix. }
  destruct (plus is_word value || String.eqb value "*").
  - intros H. by apply (Hgroups None).
  - destruct (braced value) as [inner|] eqn:Hb; [|done].
    destruct (plus is_word inner); [|done].
    intros H. apply (Hgroups (Some inner)); [done|].
    intros ? [= <-]. by apply braced_append.
Qed.

(** X14 on a declared resource with a placeholder. *)
Lemma template_groups_witness :
  ∃ name attribute,
    split colon ("agent:id:" +:+ "001") = [name; attribute; "001"].
Proof.
  destruct (template_groups "agent:id:{agent_list}"
              {| group1 := "agent:id:"; group2 := "{agent_list}";
                 group3 := Some "agent_list" |} eq_refl)
    as (name & attribute & _ & _ & _ & Hsplit & _).
  exists name, attribute. apply (Hsplit "001"). by repeat split.
Defined.

(** ** What the function is called with *)

Lemma enforce_target_inv (allow : Dict.t container)
    (kwargs kwargs' : gmap string pyarg) (index : nat) (target : string) :
  enforce_target allow kwargs (index, target) = Ok kwargs' →
  ∃ c, entry_at allow index = Ok c ∧ len c ≠ 0
       ∧ kwargs' = if String.eqb target "*" then kwargs
                   else <[target := PList (to_list c)]> kwargs.
Proof.
  unfold enforce_target, or_access_denied.
  destruct (entry_at allow index) as [c|e]; simpl; [|done].
  destruct (Nat.eqb_spec (len c) 0) as [E|E]; [done|].
  destruct (String.eqb target "*"); simpl; intros [= <-]; by exists c.
Qed.

Lemma gate_loop_narrows (allow : Dict.t container) (targets : list string)
    (start : nat) (kwargs kwargs' : gmap string pyarg) :
  for_each (enforce_target allow)
    (combine (seq start (List.length targets)) targets) kwargs
  = Ok kwargs' →
  (∀ k, k ∉ targets ∨ k = "*" → kwargs' !! k = kwargs !! k)
  ∧ (∀ t, t ∈ targets → t ≠ "*" →
       ∃ i c, targets !! i = Some t
              ∧ entry_at allow (start + i) = Ok c ∧ len c ≠ 0
              ∧ kwargs' !! t = Some (PList (to_list c))).
Proof.
  revert start kwargs. induction targets as [|t l IH]; intros start kwargs.
  - simpl. intros [= <-]. split; [done|]. intros t Ht. by apply elem_of_nil in Ht.
  - cbn -[enforce_target]. intros H.
    apply bind_ok in H as (kw1 & H1 & H2).
    apply enforce_target_inv in H1 as (c & Hc & Hlen & Hkw1).
    destruct (IH _ _ H2) as [Hframe Hbound].
    assert (∀ k, k ≠ t ∨ k = "*" → kw1 !! k = kwargs !! k) as Hfirst.
    { intros k Hk. subst kw1.
      destruct (String.eqb_spec t "*") as [Et|Et]; [done|].
      apply lookup_insert_ne. destruct Hk as [Hk|Hk]; congruence. }
    split.
    + intros k Hk. rewrite Hframe, Hfirst; [done| |].
      * destruct Hk as [Hk|?]; [left|by right].
        intros ->. apply Hk. by left.
      * destruct Hk as [Hk|?]; [left|by right].
        intros Hin. apply Hk. by right.
    + intros t' Hin Hstar. destruct (decide (t' ∈ l)) as [Hl|Hl].
      * destruct (Hbound t' Hl Hstar) as (i & c' & Hi & Hc' & Hlen' & Hk).
        exists (S i), c'. split_and!; [done| |done|done].
        by replace (start + S i) with (S start + i) by lia.
      * apply elem_of_cons in Hin as [Ht|Ht]; [subst t'|done].
        exists 0, c. rewrite Nat.add_0_r. split_and!; [done..|].
        rewrite Hframe by (by left). subst kw1.
        apply String.eqb_neq in Hstar. rewrite Hstar.
        apply lookup_insert_eq.
Qed.

(** X15. When [wrapper] calls the function, every target other than the
    wildcard is bound to the list of what is permitted at a position where
    it is declared, which is not empty; every keyword that is not such a
    target is passed as the caller gave it, but for [rbac], which is
    deleted unless the decorator is stacked. The targets are those of the
    declared resources, so that a declared resource with a value is a
    target as well, and adds a keyword named after the value. *)
Theorem authorize_narrows (sys : directories) (mode : string)
    (str_of_statements : gmap string (Dict.t string) → string)
    (actions resources : list string) (stack : bool)
    (kwargs : gmap string pyarg) (a : authorized) :
  authorize sys mode str_of_statements actions resources stack kwargs
  = Ok a →
  original_kwargs a = (if stack then kwargs else delete "rbac" kwargs)
  ∧ target_params a = map target_of resources
  ∧ (∀ k, k ∉ target_params a ∨ k = "*" →
          call_kwargs a !! k = original_kwargs a !! k)
  ∧ (∀ t, t ∈ target_params a → t ≠ "*" →
       ∃ i c, target_params a !! i = Some t
              ∧ entry_at (allow a) i = Ok c ∧ len c ≠ 0
              ∧ call_kwargs a !! t = Some (PList (to_list c))).
Proof.
  unfold authorize. destruct (_ || _); [done|]. intros H.
  apply bind_ok in H as ([[targets required] denied] & Hparse & H).
  apply bind_ok in H as (rbac & _ & H).
  apply bind_ok in H as (allowed & _ & H).
  apply bind_ok in H as (kwargs' & Hloop & [= <-]).
  cbn [original_kwargs target_params call_kwargs allow].
  apply gate_loop_narrows in Hloop as [Hframe Hbound].
  split_and!; [done| |done|done].
  unfold _get_required_permissions in Hparse.
  pose proof (parse_loop_spec str_of_statements kwargs resources
                ([], [], true)) as Hspec.
  destruct (for_each _ resources _) as [[[rl tp] ad]|e]; [|done].
  injection Hparse as <- _ _. by destruct Hspec as (_ & Ht & _).
Qed.

(** X15 on a call for two agents by a user who is allowed one of them. *)
Lemma authorize_narrows_witness :
  ∃ a,
    authorize sys0 "white" (fun _ => "") ["agent:read"]
      ["agent:id:{agent_list}"] false
      (<["agent_list" := PList ["001"; "002"]]>
         (<["pretty" := PStr "true"]>
            {["rbac" := PRbac {["agent:read" :=
                                 [("agent:id:001", "allow")]]}]}))
    = Ok a
    ∧ call_kwargs a !! "rbac" = None
    ∧ call_kwargs a !! "pretty" = Some (PStr "true")
    ∧ ∃ c, len c ≠ 0
           ∧ call_kwargs a !! "agent_list" = Some (PList (to_list c)).
Proof.
  set (kwargs := <["agent_list" := PList ["001"; "002"]]>
                   (<["pretty" := PStr "true"]>
                      {["rbac" := PRbac {["agent:read" :=
                                           [("agent:id:001", "allow")]]}]})).
  destruct (authorize sys0 "white" (fun _ => "") ["agent:read"]
              ["agent:id:{agent_list}"] false kwargs) as [a|e] eqn:Hrun;
    [|vm_compute in Hrun; discriminate Hrun].
  exists a. split; [done|].
  destruct (authorize_narrows sys0 "white" (fun _ => "") ["agent:read"]
              ["agent:id:{agent_list}"] false kwargs a Hrun)
    as (Horig & Htargets & Hframe & Hbound).
  split_and!.
  - rewrite Hframe, Horig; [done|]. left. rewrite Htargets.
    intros Hin%list_elem_of_singleton. discriminate Hin.
  - rewrite Hframe, Horig; [done|]. left. rewrite Htargets.
    intros Hin%list_elem_of_singleton. discriminate Hin.
  - destruct (Hbound "agent_list") as (i & c & _ & _ & Hlen & Hcall).
    + rewrite Htargets. by left.
    + discriminate.
    + by exists c.
Defined.

(** ** White mode without statements *)

(** X16. In white mode a call by a user who has no statement for any of
    the actions is rejected with error 4000, and the function is not
    called, whenever the decorator declares a resource: nothing is
    permitted, so that the first target finds no entry. *)
Theorem white_default_deny {R : Type} (sys : directories) (mode : string)
    (str_of_statements : gmap string (Dict.t string) → string)
    (actions resources : list string) (stack : bool)
    (func : gmap string pyarg → result R)
    (post_proc_func : option (R → authorized → result R))
    (kwargs : gmap string pyarg)
    (statements : gmap string (Dict.t string)) :
  mode ≠ "black" →
  kwargs !! "actions" = None → kwargs !! "resources" = None →
  kwargs !! "rbac" = Some (PRbac statements) →
  (∀ action, action ∈ actions → statements_for statements action = []) →
  resources ≠ [] →
  Forall (well_declared kwargs) resources →
  wrapper sys mode str_of_statements actions resources stack func
    post_proc_func kwargs
  = ([], Raise (WazuhError 4000 None)).
Proof.
  intros Hw Ha Hr Hrbac Hnone Hres Hwell. apply wrapper_raise.
  pose proof (parse_loop_spec str_of_statements kwargs resources
                ([], [], true)) as Hspec.
  destruct (for_each _ resources _) as [[[rl tp] ad]|e] eqn:Hparse;
    [|by destruct Hspec].
  destruct Hspec as (_ & Htargets & _). simpl in Htargets.
  assert (_match_permissions sys mode (required_permissions actions rl)
            (PRbac statements) = Ok Dict.empty) as Hmatch.
  { unfold _match_permissions. apply for_each_fixed. intros [action rs] Hin.
    apply required_permissions_elem in Hin as [-> Hin].
    specialize (Hnone action Hin). unfold statements_for in Hnone.
    cbn [statements_of mbind result_bind].
    destruct (statements !! action) as [l|]; simpl in Hnone;
      [subst l|]; by rewrite white_processing. }
  rewrite (authorize_gate sys mode str_of_statements actions resources stack
             kwargs (PRbac statements) tp (required_permissions actions rl)
             ad Dict.empty Ha Hr Hrbac); [| |done].
  - subst tp. destruct resources as [|r l]; [done|]. reflexivity.
  - unfold _get_required_permissions. by rewrite Hparse.
Qed.

(** X16 on a user without any statement. *)
Lemma white_default_deny_witness :
  wrapper sys0 "white" (fun _ => "") ["agent:read"] ["agent:id:{agent_list}"]
    false (fun _ => Ok tt) None
    (<["agent_list" := PList ["001"]]> {["rbac" := PRbac ∅]})
  = ([], Raise (WazuhError 4000 None)).
Proof.
  apply (white_default_deny sys0 "white" (fun _ => "") ["agent:read"]
           ["agent:id:{agent_list}"] false (fun _ => Ok tt) None
           (<["agent_list" := PList ["001"]]> {["rbac" := PRbac ∅]}) ∅).
  - done.
  - reflexivity.
  - reflexivity.
  - reflexivity.
  - intros action _. reflexivity.
  - done.
  - repeat constructor. eexists. split; [reflexivity|].
    intros name [= <-]. rewrite lookup_insert_eq. done.
Defined.

(** ** An action without statements after other actions, in black mode *)

Lemma default_allow_grows (sys : directories) (final final' : Dict.t container)
    (resource : string) :
  default_allow sys final resource = Ok final' →
  (∀ p, p ≠ "*:*" → permitted final p ⊆ permitted final' p)
  ∧ (prefix_of_resource resource ≠ "*:*" →
     expanded_values sys resource
     ⊆ permitted final' (prefix_of_resource resource)).
Proof.
  unfold default_allow, expanded_values.
  set (identifier := prefix_of_resource resource).
  destruct (String.eqb_spec identifier "*:*") as [E|Hne].
  - intros [= <-]. split; [|done]. intros p Hp. unfold permitted.
    by rewrite dict_get_set_ne by done.
  - intros H. apply bind_ok in H as (expanded & -> & H).
    apply bind_ok in H as (current & Hcur & H).
    apply bind_ok in H as (updated & Hup & [= <-]).
    unfold update in Hup. apply bind_ok in Hup as (bound & Hb & [= <-]).
    destruct current as [s|]; [|done]. injection Hb as <-.
    assert (permitted final identifier ⊆ s) as Hs.
    { unfold permitted, Dict.item, Dict.mem in *.
      destruct (Dict.get final identifier) as [c|] eqn:Hc.
      - rewrite Hc in Hcur. by injection Hcur as ->.
      - set_solver. }
    split.
    + intros p Hp. unfold permitted at 2. rewrite dict_get_set.
      destruct (String.eqb_spec identifier p) as [<-|Hother];
        [simpl; set_solver|].
      unfold permitted. destruct (Dict.mem final identifier); [done|].
      by rewrite dict_get_set_ne.
    + intros _. unfold permitted. rewrite dict_get_set_eq. simpl.
      set_solver.
Qed.

Lemma default_loop_grows (sys : directories) (req_resources : list string)
    (final final' : Dict.t container) :
  for_each (default_allow sys) req_resources final = Ok final' →
  (∀ p, p ≠ "*:*" → permitted final p ⊆ permitted final' p)
  ∧ (∀ r, r ∈ req_resources → prefix_of_resource r ≠ "*:*" →
          expanded_values sys r ⊆ permitted final' (prefix_of_resource r)).
Proof.
  revert final. induction req_resources as [|r l IH]; intros final; simpl.
  - intros [= <-]. split; [done|]. intros r Hr. by apply elem_of_nil in Hr.
  - intros H. apply bind_ok in H as (f1 & H1 & H2).
    apply default_allow_grows in H1 as [Hmono1 Hgrant1].
    apply IH in H2 as [Hmono2 Hgrant2]. split.
    + intros p Hp. etrans; [by apply Hmono1|by apply Hmono2].
    + intros r' [->|Hin]%elem_of_cons Hp; [|by apply Hgrant2].
      etrans; [by apply Hgrant1|by apply Hmono2].
Qed.

(** X17. In black mode, when the last action of a call is one that the
    user has no statement for, the call is permitted the expansion of
    every required resource, whatever the statements of the user deny
    under the actions before it. *)
Theorem black_last_action_grants (sys : directories)
    (before : list string) (last : string) (req_resources : list string)
    (statements : gmap string (Dict.t string)) (allow : Dict.t container) :
  NoDup (before ++ [last]) →
  statements_for statements last = [] →
  _match_permissions sys "black"
    (required_permissions (before ++ [last]) req_resources)
    (PRbac statements) = Ok allow →
  ∀ r, r ∈ req_resources → prefix_of_resource r ≠ "*:*" →
       expanded_values sys r ⊆ permitted allow (prefix_of_resource r).
Proof.
  intros Hnodup Hnone. rewrite required_permissions_nodup by done.
  unfold _match_permissions. rewrite map_app, for_each_app. intros H.
  apply bind_ok in H as (f1 & _ & H).
  cbn [map for_each statements_of mbind result_bind] in H.
  apply bind_ok in H as (f2 & H & [= <-]).
  assert (_permissions_processing sys "black" req_resources [] f1 = Ok f2)
    as Hlast.
  { unfold statements_for in Hnone.
    by destruct (statements !! last) as [l|]; simpl in Hnone; [subst l|]. }
  by apply default_loop_grows in Hlast as [_ Hgrant].
Qed.

(** X17 on a user who is denied every agent for the first action. *)
Lemma black_last_action_grants_witness :
  expanded_values sys0 "agent:id:001"
  ⊆ permitted [("agent:id", PySet {["001"]})]
      (prefix_of_resource "agent:id:001").
Proof.
  apply (black_last_action_grants sys0 ["agent:delete"] "agent:read"
           ["agent:id:001"]
           {["agent:delete" := [("agent:id:*", "deny")]]}
           [("agent:id", PySet {["001"]})]).
  - apply (bool_decide_unpack _). by vm_compute.
  - reflexivity.
  - reflexivity.
  - by left.
  - done.
Defined.
